(** * Galaxy generator (18-galaxy-generator/src/script.js)

    A shallow embedding of [generateGalaxy] and of the module-level state it
    works on ([geometry], [material], [points], the scene), followed by the
    properties of the particle-field generator and of its regenerate-and-
    replace life cycle.

    Arithmetic is idealised: a JavaScript number is read as a real number, or
    as the single value [NonFinite] standing for NaN and the two infinities.
    Rounding (of doubles, and of the Float32Array store) and overflow are not
    represented in the arithmetic; the arrays keep the number handed to the
    store, and [fround] tells whether the single-precision cell then holds a
    number or an infinity.

    The panel of the same script, the two loops of 17-particles/src/script.js
    and the graves and ghosts of 16-haunted-house/src/script.js follow, on the
    same numbers and the same random source. *)

From Stdlib Require Import Reals Lra ZArith Lia.
From stdpp Require Import base list.

(** ** Numbers *)

Inductive num : Type :=
| Finite (x : R)
| NonFinite.

Coercion Finite : R >-> num.

Declare Scope js_scope.
Delimit Scope js_scope with js.
Bind Scope js_scope with num.

Definition num_add (a b : num) : num :=
  match a, b with
  | Finite x, Finite y => Finite (x + y)
  | _, _ => NonFinite
  end.

Definition num_sub (a b : num) : num :=
  match a, b with
  | Finite x, Finite y => Finite (x - y)
  | _, _ => NonFinite
  end.

Definition num_mul (a b : num) : num :=
  match a, b with
  | Finite x, Finite y => Finite (x * y)
  | _, _ => NonFinite
  end.

(** Division by a finite divisor (every divisor of the program is a
    parameter): [x / 0] is an infinity or NaN. *)
Definition num_div (a : num) (y : R) : num :=
  match a with
  | Finite x => if Req_dec_T y 0 then NonFinite else Finite (x / y)
  | NonFinite => NonFinite
  end.

Infix "+" := num_add : js_scope.
Infix "-" := num_sub : js_scope.
Infix "*" := num_mul : js_scope.
Infix "/" := num_div : js_scope.

(** [i % b] on integers: the sign of the dividend, NaN for [b = 0]. *)
Definition js_rem (i b : Z) : num :=
  if (b =? 0)%Z then NonFinite else Finite (IZR (Z.rem i b)).

Module Math.

Definition PI : num := Finite Rtrigo1.PI.

Definition cos (a : num) : num :=
  match a with
  | Finite x => Finite (Rtrigo_def.cos x)
  | NonFinite => NonFinite
  end.

Definition sin (a : num) : num :=
  match a with
  | Finite x => Finite (Rtrigo_def.sin x)
  | NonFinite => NonFinite
  end.

Definition is_integer (y : R) : bool :=
  if Req_dec_T (IZR (Int_part y)) y then true else false.

(** [Math.pow] on finite arguments: [y = 0] gives 1; a zero base gives 0
    for [y > 0] and an infinity for [y < 0]; a negative base gives NaN
    unless [y] is an integer. *)
Definition pow (x y : R) : num :=
  if Req_dec_T y 0 then Finite 1
  else if Req_dec_T x 0 then
    (if Rlt_dec 0 y then Finite 0 else NonFinite)
  else if Rlt_dec 0 x then Finite (Rpower x y)
  else if is_integer y then
    Finite ((if Z.even (Int_part y) then 1 else -1) * Rpower (- x) y)
  else NonFinite.

End Math.

(** ** Parameters

    The [parameters] object of the script: [count] and [branches] hold
    integers, the other numeric fields finite numbers, and the two colours are
    given by the channels [THREE.Color] reads from them. *)

Record rgb : Type := RGB { red : R; green : R; blue : R }.

Module parameters.
Record t : Type := mk {
  count : Z;
  size : R;
  radius : R;
  branches : Z;
  spin : R;
  randomness : R;
  randomnessPower : R;
  insideColor : rgb;
  outsideColor : rgb
}.
End parameters.

(** ** THREE.Color

    three.js library class (outside the repository), with the two methods the
    generator calls; [lerp] is three.js's
    [this.r += (color.r - this.r) * alpha], per channel. *)
Module Color.
Record t : Type := mk { r : num; g : num; b : num }.

Definition new (c : rgb) : t :=
  mk (Finite (red c)) (Finite (green c)) (Finite (blue c)).

Definition clone (this : t) : t := mk (r this) (g this) (b this).

Definition lerp (this color : t) (alpha : num) : t :=
  mk (r this + (r color - r this) * alpha)%js
     (g this + (g color - g this) * alpha)%js
     (b this + (b color - b this) * alpha)%js.
End Color.

(** ** Objects, module-level state and effects *)

Inductive child : Type :=
| Camera
| PointsObject (id : nat).

Global Instance child_eq_dec : EqDecision child.
Proof. solve_decision. Defined.

Record BufferGeometry : Type := {
  position : option (list num);
  color : option (list num);
  geometry_disposed : bool
}.

Record PointsMaterial : Type := {
  material_size : R;
  sizeAttenuation : bool;
  depthWrite : bool;
  additiveBlending : bool;
  vertexColors : bool;
  material_disposed : bool
}.

Record Points : Type := { points_geometry : nat; points_material : nat }.

(** Calls into the collaborators, in the order they are made. *)
Inductive event : Type :=
| GeometryDispose (id : nat)
| MaterialDispose (id : nat)
| SceneRemove (id : nat)
| NewFloat32Array (len : Z)
| SceneAdd (c : child).

(** [geometry], [material] and [points] are the three [let] variables of the
    script ([None] is [null]); objects live in stores indexed by identity. *)
Record world : Type := World {
  geometry : option nat;
  material : option nat;
  points : option nat;
  scene : list child;
  geometries : list BufferGeometry;
  materials : list PointsMaterial;
  drawables : list Points;
  random_calls : nat;
  trace : list event
}.

(** The host: the longest typed array it can allocate, and the values
    [Math.random()] returns to the script, call after call. Only the calls
    written in the script are counted: the values three.js takes from the
    same generator when it builds an object (its uuid) are not part of
    [random_source], and [random_calls] does not count them. *)
Record host : Type := Host { max_length : N; random_source : nat -> R }.

Inductive exn : Type := RangeError | TypeError.

Inductive result (A : Type) : Type :=
| Ok (a : A)
| Throw (e : exn).
Arguments Ok {A} a.
Arguments Throw {A} e.

Definition M (A : Type) : Type := world -> result A * world.

Global Instance M_ret : MRet M := fun A a w => (Ok a, w).
Global Instance M_bind : MBind M := fun A B f m w =>
  match m w with
  | (Ok a, w') => f a w'
  | (Throw e, w') => (Throw e, w')
  end.

Definition throw {A} (e : exn) : M A := fun w => (Throw e, w).
Definition get {A} (f : world -> A) : M A := fun w => (Ok (f w), w).
Definition modify (f : world -> world) : M unit := fun w => (Ok tt, f w).
Definition emit (e : event) : M unit :=
  modify (fun w => World (geometry w) (material w) (points w) (scene w)
    (geometries w) (materials w) (drawables w) (random_calls w)
    (trace w ++ [e])).

Definition set_geometry (v : option nat) : M unit :=
  modify (fun w => World v (material w) (points w) (scene w)
    (geometries w) (materials w) (drawables w) (random_calls w) (trace w)).
Definition set_material (v : option nat) : M unit :=
  modify (fun w => World (geometry w) v (points w) (scene w)
    (geometries w) (materials w) (drawables w) (random_calls w) (trace w)).
Definition set_points (v : option nat) : M unit :=
  modify (fun w => World (geometry w) (material w) v (scene w)
    (geometries w) (materials w) (drawables w) (random_calls w) (trace w)).
Definition set_scene (f : list child -> list child) : M unit :=
  modify (fun w => World (geometry w) (material w) (points w) (f (scene w))
    (geometries w) (materials w) (drawables w) (random_calls w) (trace w)).
Definition set_geometries (f : list BufferGeometry -> list BufferGeometry)
  : M unit :=
  modify (fun w => World (geometry w) (material w) (points w) (scene w)
    (f (geometries w)) (materials w) (drawables w) (random_calls w) (trace w)).
Definition set_materials (f : list PointsMaterial -> list PointsMaterial)
  : M unit :=
  modify (fun w => World (geometry w) (material w) (points w) (scene w)
    (geometries w) (f (materials w)) (drawables w) (random_calls w) (trace w)).
Definition set_drawables (f : list Points -> list Points) : M unit :=
  modify (fun w => World (geometry w) (material w) (points w) (scene w)
    (geometries w) (materials w) (f (drawables w)) (random_calls w) (trace w)).

(** Calling a method on a variable that holds [null] is a TypeError. *)
Definition deref (v : option nat) : M nat :=
  match v with
  | Some id => mret id
  | None => throw TypeError
  end.

(** [Math.random()], called by the script: the next value of the host's
    source. *)
Definition Math_random (h : host) : M R := fun w =>
  (Ok (random_source h (random_calls w)),
   World (geometry w) (material w) (points w) (scene w)
     (geometries w) (materials w) (drawables w) (S (random_calls w))
     (trace w)).

(** [new Float32Array(len)]: zero-filled; a RangeError for a negative length
    or one the host cannot allocate. *)
Definition new_Float32Array (h : host) (len : Z) : M (list num) :=
  _ ← emit (NewFloat32Array len);
  if ((0 <=? len)%Z && (len <=? Z.of_N (max_length h))%Z)%bool
  then mret (replicate (Z.to_nat len) (Finite 0))
  else throw RangeError.

Definition new_BufferGeometry : M nat :=
  id ← get (fun w => length (geometries w));
  _ ← set_geometries (fun gs => gs ++ [Build_BufferGeometry None None false]);
  mret id.

Definition setAttribute_position (id : nat) (a : list num) : M unit :=
  set_geometries (alter (fun x =>
    Build_BufferGeometry (Some a) (color x) (geometry_disposed x)) id).

Definition setAttribute_color (id : nat) (a : list num) : M unit :=
  set_geometries (alter (fun x =>
    Build_BufferGeometry (position x) (Some a) (geometry_disposed x)) id).

Definition geometry_dispose (id : nat) : M unit :=
  _ ← emit (GeometryDispose id);
  set_geometries (alter (fun x =>
    Build_BufferGeometry (position x) (color x) true) id).

Definition new_PointsMaterial (m : PointsMaterial) : M nat :=
  id ← get (fun w => length (materials w));
  _ ← set_materials (fun ms => ms ++ [m]);
  mret id.

Definition material_dispose (id : nat) : M unit :=
  _ ← emit (MaterialDispose id);
  set_materials (alter (fun x =>
    Build_PointsMaterial (material_size x) (sizeAttenuation x) (depthWrite x)
      (additiveBlending x) (vertexColors x) true) id).

Definition new_Points (g m : nat) : M nat :=
  id ← get (fun w => length (drawables w));
  _ ← set_drawables (fun ps => ps ++ [Build_Points g m]);
  mret id.

(** [children.splice(children.indexOf(c), 1)]: the first occurrence goes. *)
Fixpoint remove_child (c : child) (l : list child) : list child :=
  match l with
  | [] => []
  | x :: l' => if decide (x = c) then l' else x :: remove_child c l'
  end.

Definition scene_remove (id : nat) : M unit :=
  _ ← emit (SceneRemove id);
  set_scene (remove_child (PointsObject id)).

(** [scene.add(c)]: an object that already has a parent is taken out of it
    first, then pushed at the end. *)
Definition scene_add (c : child) : M unit :=
  _ ← emit (SceneAdd c);
  set_scene (fun l => remove_child c l ++ [c]).

(** ** The generator *)

Fixpoint for_loop {S : Type} (n i : nat) (body : nat -> S -> M S) (s : S)
  : M S :=
  match n with
  | O => mret s
  | Datatypes.S n' => s' ← body i s; for_loop n' (Datatypes.S i) body s'
  end.

Local Open Scope R_scope.

(** Lines 117-232: the body of the particle loop. A cell of [positions] or
    [colors] keeps the number handed to the store; what the single-precision
    cell then holds is [fround] of it. *)
Definition particle (h : host) (params : parameters.t)
    (colorInside colorOutside : Color.t) (i : nat)
    (buffers : list num * list num) : M (list num * list num) :=
  let positions := buffers.1 in
  let colors := buffers.2 in
  let i3 := (i * 3)%nat in
  u ← Math_random h;
  let radius := (Finite u * parameters.radius params)%js in
  let spinAngle := (radius * parameters.spin params)%js in
  let branchAngle :=
    (js_rem (Z.of_nat i) (parameters.branches params)
       / IZR (parameters.branches params) * Math.PI * 2)%js in
  ux ← Math_random h;
  sx ← Math_random h;
  let randomX :=
    (Math.pow ux (parameters.randomnessPower params)
       * (if Rlt_dec sx 0.5 then 1 else -1)
       * parameters.randomness params * radius)%js in
  uy ← Math_random h;
  sy ← Math_random h;
  let randomY :=
    (Math.pow uy (parameters.randomnessPower params)
       * (if Rlt_dec sy 0.5 then 1 else -1)
       * parameters.randomness params * radius)%js in
  uz ← Math_random h;
  sz ← Math_random h;
  let randomZ :=
    (Math.pow uz (parameters.randomnessPower params)
       * (if Rlt_dec sz 0.5 then 1 else -1)
       * parameters.randomness params * radius)%js in
  let positions :=
    <[i3 := (Math.cos (branchAngle + spinAngle) * radius + randomX)%js]>
      positions in
  let positions := <[(i3 + 1)%nat := randomY]> positions in
  let positions :=
    <[(i3 + 2)%nat := (Math.sin (branchAngle + spinAngle) * radius + randomZ)%js]>
      positions in
  let mixedColor := Color.clone colorInside in
  let mixedColor :=
    Color.lerp mixedColor colorOutside (radius / parameters.radius params)%js in
  let colors := <[i3 := Color.r mixedColor]> colors in
  let colors := <[(i3 + 1)%nat := Color.g mixedColor]> colors in
  let colors := <[(i3 + 2)%nat := Color.b mixedColor]> colors in
  mret (positions, colors).

(** Lines 72-279. *)
Definition generateGalaxy (h : host) (params : parameters.t) : M unit :=
  pts ← get points;
  _ ← match pts with
      | Some p =>
          g ← get geometry; g ← deref g;
          _ ← geometry_dispose g;
          m ← get material; m ← deref m;
          _ ← material_dispose m;
          scene_remove p
      | None => mret tt
      end;
  g ← new_BufferGeometry;
  _ ← set_geometry (Some g);
  positions ← new_Float32Array h (parameters.count params * 3)%Z;
  colors ← new_Float32Array h (parameters.count params * 3)%Z;
  let colorInside := Color.new (parameters.insideColor params) in
  let colorOutside := Color.new (parameters.outsideColor params) in
  buffers ← for_loop (Z.to_nat (parameters.count params)) 0
               (particle h params colorInside colorOutside)
               (positions, colors);
  _ ← setAttribute_position g buffers.1;
  _ ← setAttribute_color g buffers.2;
  m ← new_PointsMaterial
        (Build_PointsMaterial (parameters.size params) true false true true
           false);
  _ ← set_material (Some m);
  p ← new_Points g m;
  _ ← set_points (Some p);
  scene_add (PointsObject p).

(** The page before the script's first call. *)
Definition initial : world := World None None None [] [] [] [] 0 [].

(** ** The loop, read as a function of the random values it draws *)

(** The angle of the arm of particle [i] (lines 149-150). *)
Definition branchAngle (params : parameters.t) (i : nat) : num :=
  (js_rem (Z.of_nat i) (parameters.branches params)
     / IZR (parameters.branches params) * Math.PI * 2)%js.

(** One scatter term (lines 169-183) from its two draws. *)
Definition scatter (params : parameters.t) (u s : R) (radius : num) : num :=
  (Math.pow u (parameters.randomnessPower params)
     * (if Rlt_dec s 0.5 then 1 else -1)
     * parameters.randomness params * radius)%js.

(** The colour of a particle at distance [radius] (lines 223-224). *)
Definition mixedColor (params : parameters.t) (radius : num) : Color.t :=
  Color.lerp (Color.clone (Color.new (parameters.insideColor params)))
    (Color.new (parameters.outsideColor params))
    (radius / parameters.radius params)%js.

(** The six cells particle [i] writes when its seven draws start at [off]. *)
Section Particle.
Variables (h : host) (params : parameters.t) (off i : nat).

Definition radius_i : num :=
  (Finite (random_source h off) * parameters.radius params)%js.
Definition spinAngle : num := (radius_i * parameters.spin params)%js.
Definition angle : num := (branchAngle params i + spinAngle)%js.
Definition position_x : num :=
  (Math.cos angle * radius_i
   + scatter params (random_source h (1 + off)) (random_source h (2 + off))
       radius_i)%js.
Definition position_y : num :=
  scatter params (random_source h (3 + off)) (random_source h (4 + off))
    radius_i.
Definition position_z : num :=
  (Math.sin angle * radius_i
   + scatter params (random_source h (5 + off)) (random_source h (6 + off))
       radius_i)%js.

Definition write_particle (buffers : list num * list num)
  : list num * list num :=
  (<[(i * 3 + 2)%nat := position_z]>
     (<[(i * 3 + 1)%nat := position_y]>
        (<[(i * 3)%nat := position_x]> buffers.1)),
   <[(i * 3 + 2)%nat := Color.b (mixedColor params radius_i)]>
     (<[(i * 3 + 1)%nat := Color.g (mixedColor params radius_i)]>
        (<[(i * 3)%nat := Color.r (mixedColor params radius_i)]>
           buffers.2))).
End Particle.

Fixpoint fill (h : host) (params : parameters.t) (n i off : nat)
    (buffers : list num * list num) : list num * list num :=
  match n with
  | O => buffers
  | S n' =>
      fill h params n' (S i) (7 + off) (write_particle h params off i buffers)
  end.

Definition advance (k : nat) (w : world) : world :=
  World (geometry w) (material w) (points w) (scene w) (geometries w)
    (materials w) (drawables w) (k + random_calls w) (trace w).

(** The two halves of [generateGalaxy]: lines 79-83, and lines 89-278. *)
Definition cleanup : M unit :=
  pts ← get points;
  match pts with
  | Some p =>
      g ← get geometry; g ← deref g;
      _ ← geometry_dispose g;
      m ← get material; m ← deref m;
      _ ← material_dispose m;
      scene_remove p
  | None => mret tt
  end.

Definition build (h : host) (params : parameters.t) : M unit :=
  g ← new_BufferGeometry;
  _ ← set_geometry (Some g);
  positions ← new_Float32Array h (parameters.count params * 3)%Z;
  colors ← new_Float32Array h (parameters.count params * 3)%Z;
  buffers ← for_loop (Z.to_nat (parameters.count params)) 0
               (particle h params (Color.new (parameters.insideColor params))
                  (Color.new (parameters.outsideColor params)))
               (positions, colors);
  _ ← setAttribute_position g buffers.1;
  _ ← setAttribute_color g buffers.2;
  m ← new_PointsMaterial
        (Build_PointsMaterial (parameters.size params) true false true true
           false);
  _ ← set_material (Some m);
  p ← new_Points g m;
  _ ← set_points (Some p);
  scene_add (PointsObject p).

(** ** What the properties talk about *)

(** The host can allocate the two arrays of [params]. *)
Definition allocates (h : host) (params : parameters.t) : Prop :=
  (0 <= parameters.count params * 3 <= Z.of_N (max_length h))%Z.

(** The buffer pair generated for [params] when the draws start at [off]. *)
Definition generated (h : host) (params : parameters.t) (off : nat)
  : list num * list num :=
  let zeros := replicate (Z.to_nat (parameters.count params * 3)) (Finite 0) in
  fill h params (Z.to_nat (parameters.count params)) 0 off (zeros, zeros).

(** The buffer pair of the drawable [id], read through its geometry. *)
Definition buffers_of (w : world) (id : nat)
  : option (list num * list num) :=
  d ← drawables w !! id;
  g ← geometries w !! points_geometry d;
  ps ← position g;
  cs ← color g;
  Some (ps, cs).

(** The drawables attached to the scene. *)
Definition is_points (c : child) : bool :=
  match c with PointsObject _ => true | Camera => false end.

Definition attached (w : world) : list child :=
  List.filter is_points (scene w).

(** The field held by [points] is on display: attached once, its geometry
    and material live. *)
Definition displayed (w : world) (p g m : nat) : Prop :=
  count_occ child_eq_dec (scene w) (PointsObject p) = 1%nat
  /\ (exists x, geometries w !! g = Some x /\ geometry_disposed x = false)
  /\ (exists x, materials w !! m = Some x /\ material_disposed x = false).

(** States of the page: the script's calls, in any order and number. *)
Inductive reachable (h : host) : world -> Prop :=
| reach_initial : reachable h initial
| reach_generate params w r w' :
    reachable h w ->
    generateGalaxy h params w = (r, w') ->
    reachable h w'
| reach_camera w r w' :
    reachable h w ->
    scene_add Camera w = (r, w') ->
    reachable h w'.

(** The legal ranges of the parameter table; the upper bound on [count] is
    the host's, see [allocates]. *)
Definition valid_rgb (c : rgb) : Prop :=
  0 <= red c <= 1 /\ 0 <= green c <= 1 /\ 0 <= blue c <= 1.

Record valid_params (params : parameters.t) : Prop := {
  valid_count : (1 <= parameters.count params)%Z;
  valid_size : 0 < parameters.size params;
  valid_radius : 0 < parameters.radius params;
  valid_branches : (1 <= parameters.branches params)%Z;
  valid_randomness : 0 <= parameters.randomness params;
  valid_randomnessPower : 1 <= parameters.randomnessPower params;
  valid_insideColor : valid_rgb (parameters.insideColor params);
  valid_outsideColor : valid_rgb (parameters.outsideColor params)
}.

(** [Math.random()] returns values in [[0, 1)]. *)
Definition uniform_draws (h : host) : Prop :=
  forall k, 0 <= random_source h k < 1.

(** What every state of the page satisfies: [geometry] and [material] are set
    whenever [points] is, the three hold objects that exist, and whatever is
    attached is the drawable [points] holds, once. *)
Definition consistent (w : world) : Prop :=
  match points w with
  | None => attached w = []
  | Some p =>
      (exists g, geometry w = Some g /\ (g < length (geometries w))%nat)
      /\ (exists m, material w = Some m /\ (m < length (materials w))%nat)
      /\ (p < length (drawables w))%nat
      /\ (attached w = [] \/ attached w = [PointsObject p])
  end.

(** ** What a call leaves behind *)

(** After lines 79-83, when [points], [geometry] and [material] hold [p], [g]
    and [m]. *)
Definition cleaned (w : world) (p g m : nat) : world :=
  World (Some g) (Some m) (Some p)
    (remove_child (PointsObject p) (scene w))
    (alter (fun x => Build_BufferGeometry (position x) (color x) true) g
       (geometries w))
    (alter (fun x => Build_PointsMaterial (material_size x) (sizeAttenuation x)
       (depthWrite x) (additiveBlending x) (vertexColors x) true) m
       (materials w))
    (drawables w) (random_calls w)
    (trace w ++ [GeometryDispose g; MaterialDispose m; SceneRemove p]).

(** After lines 89-278, when both arrays are allocated. *)
Definition built (h : host) (params : parameters.t) (w : world) : world :=
  let g := length (geometries w) in
  let m := length (materials w) in
  let p := length (drawables w) in
  let len := (parameters.count params * 3)%Z in
  World (Some g) (Some m) (Some p)
    (remove_child (PointsObject p) (scene w) ++ [PointsObject p])
    (geometries w ++
       [Build_BufferGeometry (Some (generated h params (random_calls w)).1)
          (Some (generated h params (random_calls w)).2) false])
    (materials w ++
       [Build_PointsMaterial (parameters.size params) true false true true
          false])
    (drawables w ++ [Build_Points g m])
    (7 * Z.to_nat (parameters.count params) + random_calls w)
    (trace w ++
       [NewFloat32Array len; NewFloat32Array len; SceneAdd (PointsObject p)]).

(** After line 96 throws. *)
Definition failed (params : parameters.t) (w : world) : world :=
  World (Some (length (geometries w))) (material w) (points w) (scene w)
    (geometries w ++ [Build_BufferGeometry None None false])
    (materials w) (drawables w) (random_calls w)
    (trace w ++ [NewFloat32Array (parameters.count params * 3)%Z]).

(** ** Sample inputs *)

(** The script's numeric parameters (lines 25-51), with two colours whose
    channels are the bytes of the strings of lines 55 and 59 over 255 (what
    [THREE.Color] holds with colour management off; with it on, three.js
    holds the linear-sRGB values of the same colours instead). *)
Definition defaults : parameters.t :=
  parameters.mk 100000 0.01 5 3 1 0.2 3
    (RGB 1 (96 / 255) (48 / 255)) (RGB (27 / 255) (57 / 255) (132 / 255)).

(** A host with 32-bit array lengths whose random source is stuck at 1/2. *)
Definition browser : host := Host 4294967295 (fun _ => 1 / 2).

(** The script's parameters with no scatter, with a negative scatter, and with
    a negative count. *)
Definition no_scatter : parameters.t :=
  parameters.mk 100000 0.01 5 3 1 0 3
    (RGB 1 (96 / 255) (48 / 255)) (RGB (27 / 255) (57 / 255) (132 / 255)).

Definition negative_scatter : parameters.t :=
  parameters.mk 100000 0.01 5 3 1 (-1) 3
    (RGB 1 (96 / 255) (48 / 255)) (RGB (27 / 255) (57 / 255) (132 / 255)).

Definition negative_count : parameters.t :=
  parameters.mk (-1) 0.01 5 3 1 0.2 3
    (RGB 1 (96 / 255) (48 / 255)) (RGB (27 / 255) (57 / 255) (132 / 255)).

(** The page once the script has run its first call (line 361). *)
Definition loaded : world := built browser defaults initial.

(** ** The panel (lines 291-361 and 388)

    Each controller writes its field of [parameters] and, when the change is
    finished, calls [generateGalaxy]. A value committed through a controller
    lies between the controller's [min] and [max]. *)

Inductive edit : Type :=
| edit_count (v : Z)
| edit_size (v : R)
| edit_radius (v : R)
| edit_branches (v : Z)
| edit_spin (v : R)
| edit_randomness (v : R)
| edit_randomnessPower (v : R)
| edit_insideColor (c : rgb)
| edit_outsideColor (c : rgb).

Definition within_panel (e : edit) : Prop :=
  match e with
  | edit_count v => (100 <= v <= 1000000)%Z
  | edit_size v => 0.001 <= v <= 0.1
  | edit_radius v => 0.01 <= v <= 20
  | edit_branches v => (2 <= v <= 20)%Z
  | edit_spin v => -5 <= v <= 5
  | edit_randomness v => 0 <= v <= 2
  | edit_randomnessPower v => 1 <= v <= 10
  | edit_insideColor c => valid_rgb c
  | edit_outsideColor c => valid_rgb c
  end.

Definition assign (e : edit) (params : parameters.t) : parameters.t :=
  let '(parameters.mk c s r b sp rn rp ci co) := params in
  match e with
  | edit_count v => parameters.mk v s r b sp rn rp ci co
  | edit_size v => parameters.mk c v r b sp rn rp ci co
  | edit_radius v => parameters.mk c s v b sp rn rp ci co
  | edit_branches v => parameters.mk c s r v sp rn rp ci co
  | edit_spin v => parameters.mk c s r b v rn rp ci co
  | edit_randomness v => parameters.mk c s r b sp v rp ci co
  | edit_randomnessPower v => parameters.mk c s r b sp rn v ci co
  | edit_insideColor v => parameters.mk c s r b sp rn rp v co
  | edit_outsideColor v => parameters.mk c s r b sp rn rp ci v
  end.

(** A parameter set every field of which is inside its controller's range. *)
Record in_panel (params : parameters.t) : Prop := {
  panel_count : (100 <= parameters.count params <= 1000000)%Z;
  panel_size : 0.001 <= parameters.size params <= 0.1;
  panel_radius : 0.01 <= parameters.radius params <= 20;
  panel_branches : (2 <= parameters.branches params <= 20)%Z;
  panel_spin : -5 <= parameters.spin params <= 5;
  panel_randomness : 0 <= parameters.randomness params <= 2;
  panel_randomnessPower : 1 <= parameters.randomnessPower params <= 10;
  panel_insideColor : valid_rgb (parameters.insideColor params);
  panel_outsideColor : valid_rgb (parameters.outsideColor params)
}.

(** The page in use: the script runs to its end (the first call at line 361
    returns, the camera is added at line 388), then controllers commit
    edits. *)
Inductive session (h : host) : parameters.t -> world -> Prop :=
| session_start w1 r w2 :
    generateGalaxy h defaults initial = (Ok tt, w1) ->
    scene_add Camera w1 = (r, w2) ->
    session h defaults w2
| session_commit e params w r w' :
    session h params w ->
    within_panel e ->
    generateGalaxy h (assign e params) w = (r, w') ->
    session h (assign e params) w'.

(** ** Resources *)

(** No buffer pair and no material is left behind: whatever is not disposed
    is what [geometry] and [material] hold. *)
Definition no_leak (w : world) : Prop :=
  (forall id x, geometries w !! id = Some x ->
     position x <> None -> geometry_disposed x = false ->
     geometry w = Some id)
  /\ (forall id x, materials w !! id = Some x ->
        material_disposed x = false -> material w = Some id).

(** Before any field was built there is no material and no geometry carries
    a buffer. *)
Definition blank (w : world) : Prop :=
  points w = None ->
  materials w = []
  /\ forall id x, geometries w !! id = Some x -> position x = None.

(** The drawable on display is the one [points] holds, made of the live
    geometry and material [geometry] and [material] hold, with both
    buffers. *)
Definition on_display (w : world) (p : nat) : Prop :=
  exists g m xg xm ps cs,
    points w = Some p /\ geometry w = Some g /\ material w = Some m
    /\ drawables w !! p = Some (Build_Points g m)
    /\ geometries w !! g = Some xg /\ geometry_disposed xg = false
    /\ position xg = Some ps /\ color xg = Some cs
    /\ materials w !! m = Some xm /\ material_disposed xm = false.

(** The children of the scene that are not generated fields. *)
Definition others (w : world) : list child :=
  List.filter (fun c => negb (is_points c)) (scene w).

(** Nothing in the stores is still live. *)
Definition retired (w : world) : Prop :=
  (forall id x, geometries w !! id = Some x ->
     position x <> None -> geometry_disposed x = false -> False)
  /\ (forall id x, materials w !! id = Some x ->
        material_disposed x = false -> False).

(** ** 17-particles/src/script.js

    [count] is the script's constant (20000); the clock's elapsed time is the
    argument of [particles_tick]. *)

(** Lines 38-39: one turn of the loop that fills the two arrays, [k] being
    the number of [Math.random()] calls made so far. *)
Definition particles_step (h : host) (i : nat)
    (state : list num * list num * nat) : list num * list num * nat :=
  let '(positions, colors, k) := state in
  let positions :=
    <[i := ((Finite (random_source h k) - 0.5) * 10)%js]> positions in
  let colors := <[i := Finite (random_source h (S k))]> colors in
  (positions, colors, S (S k)).

Fixpoint particles_loop (h : host) (n i : nat)
    (state : list num * list num * nat) : list num * list num * nat :=
  match n with
  | O => state
  | S n' => particles_loop h n' (S i) (particles_step h i state)
  end.

(** Lines 34-40; [None] when [new Float32Array] throws. *)
Definition particles_init (h : host) (count k : nat)
  : option (list num * list num * nat) :=
  if (Z.of_nat (count * 3) <=? Z.of_N (max_length h))%Z
  then
    let zeros := replicate (count * 3) (Finite 0) in
    Some (particles_loop h (count * 3) 0 (zeros, zeros, k))
  else None.

(** Reading a typed array: past the end the value is [undefined], which
    arithmetic turns into NaN. *)
Definition array_read (array : list num) (i : nat) : num :=
  match array !! i with
  | Some v => v
  | None => NonFinite
  end.

(** Lines 136-140: one turn of the loop of [tick]. *)
Definition wave_step (elapsedTime : R) (i : nat) (array : list num)
  : list num :=
  let i3 := (i * 3)%nat in
  let x := array_read array (i3 + 0) in
  <[(i3 + 1)%nat := Math.sin (Finite elapsedTime - x)%js]> array.

Fixpoint wave_loop (elapsedTime : R) (n i : nat) (array : list num)
  : list num :=
  match n with
  | O => array
  | S n' => wave_loop elapsedTime n' (S i) (wave_step elapsedTime i array)
  end.

(** Lines 135-141: the loop runs [count * 3] times. *)
Definition particles_tick (count : nat) (elapsedTime : R) (array : list num)
  : list num :=
  wave_loop elapsedTime (count * 3) 0 array.

(** ** 16-haunted-house/src/script.js *)

Record vec3 : Type := Vec3 { vx : R; vy : R; vz : R }.

Record mesh : Type := Mesh { mesh_position : vec3; mesh_rotation : vec3 }.

(** Lines 267-277: the grave made when [k] draws have been made. *)
Definition new_grave (h : host) (k : nat) : mesh :=
  let angle := random_source h k * Rtrigo1.PI * 2 in
  let radius := 3 + random_source h (1 + k) * 6 in
  let x := Rtrigo_def.sin angle * radius in
  let z := Rtrigo_def.cos angle * radius in
  let y := random_source h (2 + k) * 0.4 in
  Mesh (Vec3 x y z)
    (Vec3 ((random_source h (3 + k) - 0.5) * 0.4)
          ((random_source h (4 + k) - 0.5) * 0.4)
          ((random_source h (5 + k) - 0.5) * 0.4)).

(** Lines 266-280: [graves.add(grave)] pushes at the end. *)
Fixpoint graves_loop (h : host) (n k : nat) (children : list mesh)
  : list mesh * nat :=
  match n with
  | O => (children, k)
  | S n' => graves_loop h n' (6 + k) (children ++ [new_grave h k])
  end.

Definition graves (h : host) (k : nat) : list mesh * nat :=
  graves_loop h 50 k [].

(** Lines 434-456: the positions [tick] gives the three ghosts. *)
Definition ghost1 (elapsedTime : R) : vec3 :=
  let ghost1Angle := elapsedTime * 0.5 in
  Vec3 (Rtrigo_def.cos ghost1Angle * 5)
       (Rtrigo_def.sin ghost1Angle * Rtrigo_def.sin (ghost1Angle * 2.34)
        * Rtrigo_def.sin (ghost1Angle * 3.45))
       (Rtrigo_def.sin ghost1Angle * 5).

Definition ghost2 (elapsedTime : R) : vec3 :=
  let ghost2Angle := - elapsedTime * 0.38 in
  Vec3 (Rtrigo_def.cos ghost2Angle * 5)
       (Rtrigo_def.sin ghost2Angle * Rtrigo_def.sin (ghost2Angle * 2.34)
        * Rtrigo_def.sin (ghost2Angle * 3.45))
       (Rtrigo_def.sin ghost2Angle * 5).

Definition ghost3 (elapsedTime : R) : vec3 :=
  let ghost3Angle := elapsedTime * 0.23 in
  Vec3 (Rtrigo_def.cos ghost3Angle * 6)
       (Rtrigo_def.sin ghost3Angle * Rtrigo_def.sin (ghost3Angle * 2.34)
        * Rtrigo_def.sin (ghost3Angle * 3.45))
       (Rtrigo_def.sin ghost3Angle * 6).

(** The footprint of the walls, [BoxGeometry(4, 2.5, 4)] centred on the
    vertical axis (lines 174-184). *)
Definition inside_walls (p : vec3) : Prop :=
  -2 <= vx p <= 2 /\ -2 <= vz p <= 2.

(** ** What a Float32Array cell holds

    Storing a number rounds it to single precision: to an infinity as soon
    as its magnitude reaches [2^128 - 2^103], half an ulp above the largest
    single; NaN and the infinities are stored as they are. The rounding of
    the numbers below that bound is not represented. *)

Definition float32_overflow : R := 340282356779733661637539395458142568448.

Definition fround (v : num) : num :=
  match v with
  | Finite x => if Rlt_dec (Rabs x) float32_overflow then Finite x else NonFinite
  | NonFinite => NonFinite
  end.

(** ** More sample inputs *)

(** The script's parameters with 200 particles, and with a radius of 10^39
    and neither spin nor scatter. *)
Definition smaller : parameters.t :=
  parameters.mk 200 0.01 5 3 1 0.2 3
    (RGB 1 (96 / 255) (48 / 255)) (RGB (27 / 255) (57 / 255) (132 / 255)).

Definition huge_radius : parameters.t :=
  parameters.mk 100000 0.01 1000000000000000000000000000000000000000 3 0 0 3
    (RGB 1 (96 / 255) (48 / 255)) (RGB (27 / 255) (57 / 255) (132 / 255)).

(** The page after a second call, made with 200 particles; and the page once
    the script has added the camera (line 388). *)
Definition resized : world := built browser smaller (cleaned loaded 0 0 0).

Definition with_camera : world := (scene_add Camera loaded).2.

(** ** The loop *)

Example js_rem_wraps : js_rem 4 3 = Finite 1 /\ js_rem 4 0 = NonFinite.
Proof. split; reflexivity. Qed.

Example remove_child_first :
  remove_child (PointsObject 0) [Camera; PointsObject 0; PointsObject 0]
  = [Camera; PointsObject 0].
Proof. reflexivity. Qed.

Example Float32Array_bounds :
  (new_Float32Array browser 2 initial).1 = Ok [Finite 0; Finite 0]
  /\ (new_Float32Array browser (-3) initial).1 = Throw RangeError.
Proof. split; reflexivity. Qed.

Example pow_of_zero : Math.pow 0 3 = Finite 0 /\ Math.pow 0 (-1) = NonFinite.
Proof.
  unfold Math.pow. split.
  - destruct (Req_dec_T 3 0); [lra|]. destruct (Req_dec_T 0 0); [|lra].
    destruct (Rlt_dec 0 3); [reflexivity | lra].
  - destruct (Req_dec_T (-1) 0); [lra|]. destruct (Req_dec_T 0 0); [|lra].
    destruct (Rlt_dec 0 (-1)); [lra | reflexivity].
Qed.

Lemma particle_run h params i buffers w :
  particle h params (Color.new (parameters.insideColor params))
    (Color.new (parameters.outsideColor params)) i buffers w
  = (Ok (write_particle h params (random_calls w) i buffers), advance 7 w).
Proof. reflexivity. Qed.

Lemma advance_advance a b w : advance a (advance b w) = advance (a + b) w.
Proof. unfold advance; simpl. f_equal. lia. Qed.

Lemma for_loop_fill h params n : forall i buffers w,
  for_loop n i
    (particle h params (Color.new (parameters.insideColor params))
       (Color.new (parameters.outsideColor params))) buffers w
  = (Ok (fill h params n i (random_calls w) buffers), advance (7 * n) w).
Proof.
  induction n as [|n IH]; intros i buffers w.
  - destruct w; reflexivity.
  - cbn [for_loop fill]. unfold mbind, M_bind.
    rewrite particle_run, IH, advance_advance.
    do 2 f_equal. lia.
Qed.

Lemma generateGalaxy_split h params w :
  generateGalaxy h params w
  = match cleanup w with
    | (Ok _, w1) => build h params w1
    | (Throw e, w1) => (Throw e, w1)
    end.
Proof.
  unfold generateGalaxy, cleanup, build, mbind, M_bind, get; simpl.
  destruct (points w) as [p|]; [|reflexivity].
  destruct (geometry w) as [g|]; [|reflexivity].
  simpl. destruct (material w) as [m|]; reflexivity.
Qed.

Lemma write_particle_length h params off i buffers :
  length (write_particle h params off i buffers).1 = length buffers.1
  /\ length (write_particle h params off i buffers).2 = length buffers.2.
Proof. unfold write_particle; simpl. rewrite !length_insert. done. Qed.

Lemma fill_length h params n : forall i off buffers,
  length (fill h params n i off buffers).1 = length buffers.1
  /\ length (fill h params n i off buffers).2 = length buffers.2.
Proof.
  induction n as [|n IH]; intros i off buffers; cbn [fill]; [done|].
  destruct (IH (S i) (7 + off)%nat (write_particle h params off i buffers))
    as [H1 H2].
  destruct (write_particle_length h params off i buffers) as [H3 H4].
  split; congruence.
Qed.

(** Particle [i] writes the cells [3i], [3i+1], [3i+2] and no other. *)
Lemma write_particle_other h params off i buffers k :
  (k < i * 3 \/ i * 3 + 3 <= k)%nat ->
  (write_particle h params off i buffers).1 !! k = buffers.1 !! k
  /\ (write_particle h params off i buffers).2 !! k = buffers.2 !! k.
Proof.
  intros Hk. unfold write_particle; simpl.
  rewrite !list_lookup_insert_ne by lia. done.
Qed.

Lemma write_particle_here h params off i buffers :
  (i * 3 + 2 < length buffers.1)%nat ->
  (i * 3 + 2 < length buffers.2)%nat ->
  let b := write_particle h params off i buffers in
  b.1 !! (i * 3)%nat = Some (position_x h params off i)
  /\ b.1 !! (i * 3 + 1)%nat = Some (position_y h params off)
  /\ b.1 !! (i * 3 + 2)%nat = Some (position_z h params off i)
  /\ b.2 !! (i * 3)%nat = Some (Color.r (mixedColor params (radius_i h params off)))
  /\ b.2 !! (i * 3 + 1)%nat = Some (Color.g (mixedColor params (radius_i h params off)))
  /\ b.2 !! (i * 3 + 2)%nat = Some (Color.b (mixedColor params (radius_i h params off))).
Proof.
  intros H1 H2. unfold write_particle; simpl.
  repeat split.
  - rewrite !list_lookup_insert_ne by lia.
    apply list_lookup_insert_eq. lia.
  - rewrite list_lookup_insert_ne by lia.
    apply list_lookup_insert_eq. rewrite length_insert. lia.
  - apply list_lookup_insert_eq. rewrite !length_insert. lia.
  - rewrite !list_lookup_insert_ne by lia.
    apply list_lookup_insert_eq. lia.
  - rewrite list_lookup_insert_ne by lia.
    apply list_lookup_insert_eq. rewrite length_insert. lia.
  - apply list_lookup_insert_eq. rewrite !length_insert. lia.
Qed.

Lemma fill_other h params n : forall i off buffers k,
  (k < i * 3 \/ (i + n) * 3 <= k)%nat ->
  (fill h params n i off buffers).1 !! k = buffers.1 !! k
  /\ (fill h params n i off buffers).2 !! k = buffers.2 !! k.
Proof.
  induction n as [|n IH]; intros i off buffers k Hk; cbn [fill]; [done|].
  destruct (IH (S i) (7 + off)%nat (write_particle h params off i buffers) k)
    as [H1 H2]; [lia|].
  destruct (write_particle_other h params off i buffers k) as [H3 H4]; [lia|].
  split; congruence.
Qed.

Lemma fill_here h params n : forall i off buffers j,
  (i <= j < i + n)%nat ->
  ((i + n) * 3 <= length buffers.1)%nat ->
  ((i + n) * 3 <= length buffers.2)%nat ->
  let b := fill h params n i off buffers in
  let o := (off + 7 * (j - i))%nat in
  b.1 !! (j * 3)%nat = Some (position_x h params o j)
  /\ b.1 !! (j * 3 + 1)%nat = Some (position_y h params o)
  /\ b.1 !! (j * 3 + 2)%nat = Some (position_z h params o j)
  /\ b.2 !! (j * 3)%nat = Some (Color.r (mixedColor params (radius_i h params o)))
  /\ b.2 !! (j * 3 + 1)%nat = Some (Color.g (mixedColor params (radius_i h params o)))
  /\ b.2 !! (j * 3 + 2)%nat = Some (Color.b (mixedColor params (radius_i h params o))).
Proof.
  induction n as [|n IH]; intros i off buffers j Hj L1 L2; [lia|].
  cbn zeta. cbn [fill].
  destruct (write_particle_length h params off i buffers) as [W1 W2].
  destruct (decide (j = i)) as [->|Hne].
  - replace (off + 7 * (i - i))%nat with off by lia.
    pose proof (fun k Hk => fill_other h params n (S i) (7 + off)%nat
      (write_particle h params off i buffers) k (or_introl Hk)) as Hout.
    destruct (Hout (i * 3)%nat ltac:(lia)) as [-> ->].
    destruct (Hout (i * 3 + 1)%nat ltac:(lia)) as [-> ->].
    destruct (Hout (i * 3 + 2)%nat ltac:(lia)) as [-> ->].
    apply write_particle_here; lia.
  - replace (off + 7 * (j - i))%nat with (7 + off + 7 * (j - S i))%nat by lia.
    apply IH; [lia| rewrite W1; lia | rewrite W2; lia].
Qed.

(** ** One call *)

Lemma alloc_true h params :
  allocates h params ->
  ((0 <=? parameters.count params * 3)%Z
   && (parameters.count params * 3 <=? Z.of_N (max_length h))%Z)%bool = true.
Proof. unfold allocates. intros [H1 H2]. apply andb_true_intro; split; lia. Qed.

Lemma alloc_false h params :
  ~ allocates h params ->
  ((0 <=? parameters.count params * 3)%Z
   && (parameters.count params * 3 <=? Z.of_N (max_length h))%Z)%bool = false.
Proof.
  unfold allocates. intros H. apply andb_false_iff.
  destruct (Z.leb_spec 0 (parameters.count params * 3)); [|by left].
  right. apply Z.leb_gt. lia.
Qed.

Lemma alter_last {A} (f : A -> A) (l : list A) (x : A) :
  alter f (length l) (l ++ [x]) = l ++ [f x].
Proof. induction l as [|a l IH]; simpl; [done|]. by f_equal. Qed.

Lemma build_ok h params w :
  allocates h params -> build h params w = (Ok tt, built h params w).
Proof.
  intros Ha. unfold build, new_Float32Array, mbind, M_bind. simpl.
  rewrite (alloc_true h params Ha). simpl.
  rewrite for_loop_fill. simpl.
  unfold scene_add, mbind, M_bind, built, generated. simpl.
  rewrite !alter_last. simpl. rewrite <- !app_assoc. reflexivity.
Qed.

Lemma build_throws h params w :
  ~ allocates h params ->
  build h params w = (Throw RangeError, failed params w).
Proof.
  intros Ha. unfold build, new_Float32Array, mbind, M_bind. simpl.
  rewrite (alloc_false h params Ha). reflexivity.
Qed.

Lemma cleanup_idle w : points w = None -> cleanup w = (Ok tt, w).
Proof. intros H. unfold cleanup, mbind, M_bind, get. rewrite H. reflexivity. Qed.

Lemma cleanup_active w p g m :
  points w = Some p -> geometry w = Some g -> material w = Some m ->
  cleanup w = (Ok tt, cleaned w p g m).
Proof.
  intros Hp Hg Hm. destruct w; simpl in *; subst.
  unfold cleanup, cleaned, scene_remove, mbind, M_bind, get; simpl.
  rewrite <- !app_assoc. reflexivity.
Qed.

Lemma allocates_dec h params : {allocates h params} + {~ allocates h params}.
Proof.
  unfold allocates.
  destruct (Z_le_dec 0 (parameters.count params * 3));
    destruct (Z_le_dec (parameters.count params * 3) (Z.of_N (max_length h)));
    (left; lia) || (right; lia).
Qed.

Lemma generate_idle h params w :
  points w = None ->
  generateGalaxy h params w
  = if allocates_dec h params then (Ok tt, built h params w)
    else (Throw RangeError, failed params w).
Proof.
  intros Hp. rewrite generateGalaxy_split, (cleanup_idle w Hp).
  destruct (allocates_dec h params); auto using build_ok, build_throws.
Qed.

Lemma generate_active h params w p g m :
  points w = Some p -> geometry w = Some g -> material w = Some m ->
  generateGalaxy h params w
  = if allocates_dec h params then (Ok tt, built h params (cleaned w p g m))
    else (Throw RangeError, failed params (cleaned w p g m)).
Proof.
  intros Hp Hg Hm. rewrite generateGalaxy_split, (cleanup_active w p g m Hp Hg Hm).
  destruct (allocates_dec h params); auto using build_ok, build_throws.
Qed.

(** ** The scene *)

Lemma filter_remove_points p l :
  List.filter is_points (remove_child (PointsObject p) l)
  = remove_child (PointsObject p) (List.filter is_points l).
Proof.
  induction l as [|x l IH]; simpl; [done|].
  destruct x as [|q]; simpl.
  - destruct (decide (Camera = PointsObject p)); [discriminate|]. simpl. done.
  - destruct (decide (PointsObject q = PointsObject p)); [done|].
    simpl. by rewrite IH.
Qed.

Lemma filter_remove_camera l :
  List.filter is_points (remove_child Camera l) = List.filter is_points l.
Proof.
  induction l as [|x l IH]; simpl; [done|].
  destruct x as [|q]; simpl.
  - destruct (decide (Camera = Camera)); [done|congruence].
  - destruct (decide (PointsObject q = Camera)); [discriminate|].
    simpl. by rewrite IH.
Qed.

Lemma attached_cleaned w p g m :
  attached w = [] \/ attached w = [PointsObject p] ->
  attached (cleaned w p g m) = [].
Proof.
  unfold attached, cleaned; simpl. rewrite filter_remove_points.
  intros [-> | ->]; simpl; [done|].
  destruct (decide (PointsObject p = PointsObject p)); congruence.
Qed.

Lemma attached_built h params w :
  attached w = [] ->
  attached (built h params w) = [PointsObject (length (drawables w))].
Proof.
  unfold attached, built; simpl. intros H.
  rewrite List.filter_app, filter_remove_points, H. reflexivity.
Qed.

Lemma consistent_built h params w :
  attached w = [] -> consistent (built h params w).
Proof.
  intros H. unfold consistent. cbn [points built geometry material geometries
    materials drawables]. rewrite !length_app. simpl.
  split; [eexists; split; [reflexivity|lia]|].
  split; [eexists; split; [reflexivity|lia]|].
  split; [lia|]. right. by apply attached_built.
Qed.

Lemma consistent_generate h params w r w' :
  consistent w -> generateGalaxy h params w = (r, w') -> consistent w'.
Proof.
  unfold consistent at 1. intros Hc Hrun.
  destruct (points w) as [p|] eqn:Hp.
  - destruct Hc as ([g [Hg Lg]] & [m [Hm Lm]] & Lp & Hatt).
    rewrite (generate_active h params w p g m Hp Hg Hm) in Hrun.
    pose proof (attached_cleaned w p g m Hatt) as Hcl.
    destruct (allocates_dec h params); inversion Hrun; subst; clear Hrun.
    + by apply consistent_built.
    + unfold consistent. cbn [points failed cleaned geometry material
        geometries materials drawables].
      rewrite length_app, !length_alter. simpl.
      split; [eexists; split; [reflexivity|lia]|].
      split; [eexists; split; [reflexivity|lia]|].
      split; [lia|]. left. exact Hcl.
  - rewrite (generate_idle h params w Hp) in Hrun.
    destruct (allocates_dec h params); inversion Hrun; subst; clear Hrun.
    + by apply consistent_built.
    + unfold consistent. cbn [points failed]. by rewrite Hp.
Qed.

Lemma consistent_camera w r w' :
  consistent w -> scene_add Camera w = (r, w') -> consistent w'.
Proof.
  intros Hc Hrun. unfold scene_add, mbind, M_bind in Hrun. simpl in Hrun.
  inversion Hrun; subst; clear Hrun.
  unfold consistent, attached in *; simpl.
  rewrite List.filter_app, filter_remove_camera. simpl. rewrite app_nil_r.
  exact Hc.
Qed.

Lemma reachable_consistent h w : reachable h w -> consistent w.
Proof.
  induction 1 as [|params w r w' _ IH Hrun|w r w' _ IH Hrun].
  - reflexivity.
  - eapply consistent_generate; eauto.
  - eapply consistent_camera; eauto.
Qed.

(** ** The buffers of the new drawable *)

Lemma buffers_of_built h params w :
  buffers_of (built h params w) (length (drawables w))
  = Some (generated h params (random_calls w)).
Proof.
  unfold buffers_of, built; simpl.
  rewrite (list_lookup_middle (drawables w) [] _ _ eq_refl). simpl.
  rewrite (list_lookup_middle (geometries w) [] _ _ eq_refl). simpl.
  by destruct (generated h params (random_calls w)).
Qed.

Lemma generated_length h params off :
  length (generated h params off).1 = Z.to_nat (parameters.count params * 3)
  /\ length (generated h params off).2 = Z.to_nat (parameters.count params * 3).
Proof.
  unfold generated. cbn zeta.
  match goal with |- context [fill ?h ?p ?n ?i ?o ?b] =>
    destruct (fill_length h p n i o b) as [-> ->] end.
  simpl. rewrite length_replicate. done.
Qed.

Lemma generated_cells h params off i :
  (Z.of_nat i < parameters.count params)%Z ->
  let b := generated h params off in
  let o := (off + 7 * i)%nat in
  b.1 !! (i * 3)%nat = Some (position_x h params o i)
  /\ b.1 !! (i * 3 + 1)%nat = Some (position_y h params o)
  /\ b.1 !! (i * 3 + 2)%nat = Some (position_z h params o i)
  /\ b.2 !! (i * 3)%nat = Some (Color.r (mixedColor params (radius_i h params o)))
  /\ b.2 !! (i * 3 + 1)%nat = Some (Color.g (mixedColor params (radius_i h params o)))
  /\ b.2 !! (i * 3 + 2)%nat = Some (Color.b (mixedColor params (radius_i h params o))).
Proof.
  intros Hi. cbn zeta. unfold generated. cbn zeta.
  replace (off + 7 * i)%nat with (off + 7 * (i - 0))%nat by lia.
  apply fill_here; simpl; rewrite ?length_replicate; lia.
Qed.

(** A call in a state of the page never meets [null], and returns exactly when
    the host allocates the arrays. *)
Lemma generate_returns h params w :
  consistent w -> allocates h params ->
  exists w',
    generateGalaxy h params w = (Ok tt, w')
    /\ points w' = Some (length (drawables w))
    /\ attached w' = [PointsObject (length (drawables w))]
    /\ buffers_of w' (length (drawables w))
       = Some (generated h params (random_calls w))
    /\ random_calls w'
       = (7 * Z.to_nat (parameters.count params) + random_calls w)%nat.
Proof.
  unfold consistent. intros Hc Ha.
  destruct (points w) as [p|] eqn:Hp.
  - destruct Hc as ([g [Hg _]] & [m [Hm _]] & _ & Hatt).
    exists (built h params (cleaned w p g m)).
    rewrite (generate_active h params w p g m Hp Hg Hm).
    destruct (allocates_dec h params); [|contradiction].
    split; [done|]. split; [done|]. split.
    + apply (attached_built h params (cleaned w p g m)).
      by apply attached_cleaned.
    + split; [apply (buffers_of_built h params (cleaned w p g m)) | done].
  - exists (built h params w). rewrite (generate_idle h params w Hp).
    destruct (allocates_dec h params); [|contradiction].
    split; [done|]. split; [done|]. split; [by apply attached_built|].
    split; [apply buffers_of_built | done].
Qed.

Lemma generate_throws h params w :
  consistent w -> ~ allocates h params ->
  exists w', generateGalaxy h params w = (Throw RangeError, w').
Proof.
  unfold consistent. intros Hc Ha.
  destruct (points w) as [p|] eqn:Hp.
  - destruct Hc as ([g [Hg _]] & [m [Hm _]] & _ & Hatt).
    rewrite (generate_active h params w p g m Hp Hg Hm).
    destruct (allocates_dec h params); [contradiction|]. eauto.
  - rewrite (generate_idle h params w Hp).
    destruct (allocates_dec h params); [contradiction|]. eauto.
Qed.

(** ** Sample inputs are legal *)

Lemma defaults_valid : valid_params defaults.
Proof.
  split; simpl; try lia; try lra; unfold valid_rgb; simpl; repeat split; lra.
Defined.

Lemma browser_uniform : uniform_draws browser.
Proof. intros k; simpl. lra. Defined.

Lemma browser_allocates_defaults : allocates browser defaults.
Proof. unfold allocates; simpl. lia. Defined.

(** ** Sizes *)

(** C3: for every valid parameter set the host can allocate, a call made in
    any state of the page returns, and the geometry of the new drawable
    carries a position array and a colour array of exactly [3 * count] cells
    each. *)
Theorem generate_buffer_lengths h params w :
  reachable h w -> valid_params params -> allocates h params ->
  exists w' id positions colors,
    generateGalaxy h params w = (Ok tt, w')
    /\ points w' = Some id
    /\ buffers_of w' id = Some (positions, colors)
    /\ Z.of_nat (length positions) = (3 * parameters.count params)%Z
    /\ Z.of_nat (length colors) = (3 * parameters.count params)%Z.
Proof.
  intros Hr _ Ha.
  destruct (generate_returns h params w (reachable_consistent h w Hr) Ha)
    as (w' & Hrun & Hp & _ & Hb & _).
  destruct (generated_length h params (random_calls w)) as [L1 L2].
  destruct (generated h params (random_calls w)) as [ps cs] eqn:E.
  exists w', (length (drawables w)), ps, cs. simpl in L1, L2.
  unfold allocates in Ha. repeat split; auto; lia.
Qed.

Lemma generate_buffer_lengths_witness :
  reachable browser initial /\ valid_params defaults
  /\ allocates browser defaults
  /\ exists w' id positions colors,
       generateGalaxy browser defaults initial = (Ok tt, w')
       /\ points w' = Some id
       /\ buffers_of w' id = Some (positions, colors)
       /\ Z.of_nat (length positions) = 300000%Z
       /\ Z.of_nat (length colors) = 300000%Z.
Proof.
  split; [apply reach_initial|].
  split; [apply defaults_valid|].
  split; [apply browser_allocates_defaults|].
  apply (generate_buffer_lengths browser defaults initial).
  - apply reach_initial.
  - apply defaults_valid.
  - apply browser_allocates_defaults.
Defined.

(** C10: with [count = 0] a call made in any state of the page returns
    without error, draws no random value (the loop runs zero times), and
    the new drawable carries an empty position array and an empty colour
    array. *)
Theorem generate_count_zero h params w :
  reachable h w -> parameters.count params = 0%Z ->
  exists w' id,
    generateGalaxy h params w = (Ok tt, w')
    /\ points w' = Some id
    /\ buffers_of w' id = Some ([], [])
    /\ random_calls w' = random_calls w.
Proof.
  intros Hr H0.
  assert (Ha : allocates h params) by (unfold allocates; rewrite H0; lia).
  destruct (generate_returns h params w (reachable_consistent h w Hr) Ha)
    as (w' & Hrun & Hp & _ & Hb & Hc).
  exists w', (length (drawables w)).
  repeat split; auto.
  - rewrite Hb. unfold generated. rewrite H0. reflexivity.
  - rewrite Hc, H0. reflexivity.
Qed.

Lemma generate_count_zero_witness :
  reachable browser initial
  /\ exists w' id,
       generateGalaxy browser
         (parameters.mk 0 0.01 5 3 1 0.2 3 (RGB 1 0 0) (RGB 0 0 1)) initial
       = (Ok tt, w')
       /\ points w' = Some id
       /\ buffers_of w' id = Some ([], [])
       /\ random_calls w' = random_calls initial.
Proof.
  split; [apply reach_initial|].
  apply (generate_count_zero browser _ initial).
  - apply reach_initial.
  - reflexivity.
Defined.

(** ** Arms *)

Lemma js_rem_residue i b :
  (1 <= b)%Z -> js_rem (Z.of_nat i) b = Finite (IZR (Z.of_nat i mod b)).
Proof.
  intros Hb. unfold js_rem.
  destruct (Z.eqb_spec b 0) as [->|_]; [lia|].
  rewrite Z.rem_mod_nonneg by lia. reflexivity.
Qed.

Lemma branchAngle_value params i :
  (1 <= parameters.branches params)%Z ->
  branchAngle params i
  = Finite (IZR (Z.of_nat i mod parameters.branches params)
            / IZR (parameters.branches params) * (2 * Rtrigo1.PI)).
Proof.
  intros Hb.
  assert (Hne : IZR (parameters.branches params) <> 0)
    by (apply not_0_IZR; lia).
  unfold branchAngle. rewrite (js_rem_residue i _ Hb).
  unfold Math.PI; simpl.
  destruct (Req_dec_T (IZR (parameters.branches params)) 0); [contradiction|].
  simpl. f_equal. field. exact Hne.
Qed.



(** ** Colours *)

Lemma mixedColor_value h params off :
  parameters.radius params <> 0 ->
  let t := random_source h off * parameters.radius params
           / parameters.radius params in
  let mix a b := Finite (a + t * (b - a)) in
  mixedColor params (radius_i h params off)
  = Color.mk
      (mix (red (parameters.insideColor params))
           (red (parameters.outsideColor params)))
      (mix (green (parameters.insideColor params))
           (green (parameters.outsideColor params)))
      (mix (blue (parameters.insideColor params))
           (blue (parameters.outsideColor params))).
Proof.
  intros Hr. unfold mixedColor, radius_i, Color.lerp, Color.clone, Color.new.
  simpl. destruct (Req_dec_T (parameters.radius params) 0); [contradiction|].
  simpl. f_equal; f_equal; ring.
Qed.

Lemma mix_between a b t :
  0 <= t <= 1 -> Rmin a b <= a + t * (b - a) <= Rmax a b.
Proof.
  intros Ht. unfold Rmin, Rmax. destruct (Rle_dec a b); nra.
Qed.

(** C6: when [radius] is not 0, the three colour cells of every particle [i]
    hold [insideColor + t * (outsideColor - insideColor)], channel by channel,
    with [t = radius_i / radius] and [radius_i] the particle's first draw times
    [radius]; no other draw, and neither the index nor the branch, enters the
    value; at [radius_i = 0] the cells hold [insideColor] itself. *)
Theorem color_by_radius h params w i :
  reachable h w -> allocates h params ->
  parameters.radius params <> 0 ->
  (Z.of_nat i < parameters.count params)%Z ->
  exists w' id positions colors,
    generateGalaxy h params w = (Ok tt, w')
    /\ points w' = Some id
    /\ buffers_of w' id = Some (positions, colors)
    /\ let inside := parameters.insideColor params in
       let outside := parameters.outsideColor params in
       let radius_i :=
         random_source h (random_calls w + 7 * i) * parameters.radius params in
       let t := radius_i / parameters.radius params in
       colors !! (i * 3)%nat
       = Some (Finite (red inside + t * (red outside - red inside)))
       /\ colors !! (i * 3 + 1)%nat
          = Some (Finite (green inside + t * (green outside - green inside)))
       /\ colors !! (i * 3 + 2)%nat
          = Some (Finite (blue inside + t * (blue outside - blue inside)))
       /\ (radius_i = 0 ->
           colors !! (i * 3)%nat = Some (Finite (red inside))
           /\ colors !! (i * 3 + 1)%nat = Some (Finite (green inside))
           /\ colors !! (i * 3 + 2)%nat = Some (Finite (blue inside))).
Proof.
  intros Hr Ha Hrad Hi.
  destruct (generate_returns h params w (reachable_consistent h w Hr) Ha)
    as (w' & Hrun & Hp & _ & Hb & _).
  destruct (generated_cells h params (random_calls w) i Hi)
    as (_ & _ & _ & Cr & Cg & Cb).
  rewrite (mixedColor_value h params _ Hrad) in Cr, Cg, Cb.
  destruct (generated h params (random_calls w)) as [ps cs].
  exists w', (length (drawables w)), ps, cs.
  cbn [fst snd Color.r Color.g Color.b] in Cr, Cg, Cb.
  split; [done|]. split; [done|]. split; [done|]. cbn zeta.
  split; [exact Cr|]. split; [exact Cg|]. split; [exact Cb|].
  intros H0. rewrite Cr, Cg, Cb, H0.
  repeat split; do 2 f_equal; field; exact Hrad.
Qed.

Lemma color_by_radius_witness :
  reachable browser initial /\ allocates browser defaults
  /\ parameters.radius defaults <> 0
  /\ (Z.of_nat 2 < parameters.count defaults)%Z
  /\ exists w' id positions colors,
       generateGalaxy browser defaults initial = (Ok tt, w')
       /\ points w' = Some id
       /\ buffers_of w' id = Some (positions, colors)
       /\ colors !! 6%nat
          = Some (Finite (1 + 1 / 2 * 5 / 5 * (27 / 255 - 1))).
Proof.
  assert (Hrad : parameters.radius defaults <> 0) by (simpl; lra).
  assert (Hi : (Z.of_nat 2 < parameters.count defaults)%Z) by (simpl; lia).
  split; [apply reach_initial|].
  split; [apply browser_allocates_defaults|].
  split; [exact Hrad|]. split; [exact Hi|].
  destruct (color_by_radius browser defaults initial 2
              (reach_initial browser) browser_allocates_defaults Hrad Hi)
    as (w' & id & ps & cs & H1 & H2 & H3 & H4 & _).
  exists w', id, ps, cs. repeat split; assumption.
Defined.

(** C7: for every valid parameter set and draws in [[0, 1)], the mix factor
    [radius_i / radius] of every particle lies in [[0, 1]], and each of its
    colour cells holds a finite value between the smaller and the larger of
    the two colours' values for that channel. *)
Theorem color_between_inside_and_outside h params w i :
  reachable h w -> allocates h params ->
  valid_params params -> uniform_draws h ->
  (Z.of_nat i < parameters.count params)%Z ->
  exists w' id positions colors,
    generateGalaxy h params w = (Ok tt, w')
    /\ points w' = Some id
    /\ buffers_of w' id = Some (positions, colors)
    /\ let inside := parameters.insideColor params in
       let outside := parameters.outsideColor params in
       let radius_i :=
         random_source h (random_calls w + 7 * i) * parameters.radius params in
       0 <= radius_i / parameters.radius params <= 1
       /\ (exists c, colors !! (i * 3)%nat = Some (Finite c)
          /\ Rmin (red inside) (red outside) <= c
             <= Rmax (red inside) (red outside))
       /\ (exists c, colors !! (i * 3 + 1)%nat = Some (Finite c)
             /\ Rmin (green inside) (green outside) <= c
                <= Rmax (green inside) (green outside))
       /\ (exists c, colors !! (i * 3 + 2)%nat = Some (Finite c)
             /\ Rmin (blue inside) (blue outside) <= c
                <= Rmax (blue inside) (blue outside)).
Proof.
  intros Hr Ha Hv Hu Hi.
  pose proof (valid_radius params Hv) as Hpos.
  assert (Hrad : parameters.radius params <> 0) by lra.
  destruct (generate_returns h params w (reachable_consistent h w Hr) Ha)
    as (w' & Hrun & Hp & _ & Hb & _).
  destruct (generated_cells h params (random_calls w) i Hi)
    as (_ & _ & _ & Cr & Cg & Cb).
  rewrite (mixedColor_value h params _ Hrad) in Cr, Cg, Cb.
  destruct (generated h params (random_calls w)) as [ps cs].
  exists w', (length (drawables w)), ps, cs.
  cbn [fst snd Color.r Color.g Color.b] in Cr, Cg, Cb.
  split; [done|]. split; [done|]. split; [done|]. cbn zeta.
  assert (Ht : 0 <= random_source h (random_calls w + 7 * i)
                    * parameters.radius params / parameters.radius params
               <= 1).
  { replace (random_source h (random_calls w + 7 * i)
             * parameters.radius params / parameters.radius params)
      with (random_source h (random_calls w + 7 * i)) by (field; exact Hrad).
    destruct (Hu (random_calls w + 7 * i)%nat). lra. }
  split; [exact Ht|].
  split; [|split]; eexists; (split; [eassumption|]);
    apply mix_between; exact Ht.
Qed.

Lemma color_between_inside_and_outside_witness :
  reachable browser initial /\ allocates browser defaults
  /\ valid_params defaults /\ uniform_draws browser
  /\ (Z.of_nat 2 < parameters.count defaults)%Z
  /\ exists w' id positions colors,
       generateGalaxy browser defaults initial = (Ok tt, w')
       /\ points w' = Some id
       /\ buffers_of w' id = Some (positions, colors)
       /\ exists c, colors !! 6%nat = Some (Finite c)
            /\ Rmin 1 (27 / 255) <= c <= Rmax 1 (27 / 255).
Proof.
  assert (Hi : (Z.of_nat 2 < parameters.count defaults)%Z) by (simpl; lia).
  split; [apply reach_initial|].
  split; [apply browser_allocates_defaults|].
  split; [apply defaults_valid|]. split; [apply browser_uniform|].
  split; [exact Hi|].
  destruct (color_between_inside_and_outside browser defaults initial 2
              (reach_initial browser) browser_allocates_defaults
              defaults_valid browser_uniform Hi)
    as (w' & id & ps & cs & H1 & H2 & H3 & _ & H4 & _).
  exists w', id, ps, cs. repeat split; assumption.
Defined.

(** ** Positions *)

Lemma pow_finite u y : 0 <= u -> 1 <= y -> exists v, Math.pow u y = Finite v.
Proof.
  intros Hu Hy. unfold Math.pow.
  destruct (Req_dec_T y 0); [lra|].
  destruct (Req_dec_T u 0).
  - destruct (Rlt_dec 0 y); [eauto | lra].
  - destruct (Rlt_dec 0 u); [eauto | lra].
Qed.

Lemma scatter_zero params u s r :
  0 <= u -> 1 <= parameters.randomnessPower params ->
  parameters.randomness params = 0 ->
  scatter params u s (Finite r) = Finite 0.
Proof.
  intros Hu Hp H0. unfold scatter.
  destruct (pow_finite u _ Hu Hp) as [v ->]. rewrite H0.
  destruct (Rlt_dec s 0.5); simpl; f_equal; ring.
Qed.

(** C4: for every valid parameter set with [randomness = 0] and draws in
    [[0, 1)], the three position cells of every particle [i] hold the point of
    the ideal spiral: [cos (branchAngle + spinAngle) * radius_i], 0 and
    [sin (branchAngle + spinAngle) * radius_i], whatever the six draws of the
    scatter terms are. *)
Theorem spiral_without_randomness h params w i :
  reachable h w -> allocates h params ->
  valid_params params -> uniform_draws h ->
  parameters.randomness params = 0 ->
  (Z.of_nat i < parameters.count params)%Z ->
  exists w' id positions colors,
    generateGalaxy h params w = (Ok tt, w')
    /\ points w' = Some id
    /\ buffers_of w' id = Some (positions, colors)
    /\ let radius_i :=
         random_source h (random_calls w + 7 * i) * parameters.radius params in
       let branchAngle :=
         IZR (Z.of_nat i mod parameters.branches params)
         / IZR (parameters.branches params) * (2 * Rtrigo1.PI) in
       let spinAngle := radius_i * parameters.spin params in
       positions !! (i * 3)%nat
       = Some (Finite (Rtrigo_def.cos (branchAngle + spinAngle) * radius_i))
       /\ positions !! (i * 3 + 1)%nat = Some (Finite 0)
       /\ positions !! (i * 3 + 2)%nat
          = Some (Finite (Rtrigo_def.sin (branchAngle + spinAngle) * radius_i)).
Proof.
  intros Hr Ha Hv Hu H0 Hi.
  destruct (generate_returns h params w (reachable_consistent h w Hr) Ha)
    as (w' & Hrun & Hp & _ & Hb & _).
  destruct (generated_cells h params (random_calls w) i Hi)
    as (Cx & Cy & Cz & _).
  pose proof (valid_randomnessPower params Hv) as HP.
  unfold position_x, position_y, position_z, angle, spinAngle, radius_i
    in Cx, Cy, Cz.
  rewrite (branchAngle_value params i (valid_branches params Hv)) in Cx, Cz.
  cbn [num_mul] in Cx, Cy, Cz.
  rewrite (scatter_zero params _ _ _ (proj1 (Hu _)) HP H0) in Cx.
  rewrite (scatter_zero params _ _ _ (proj1 (Hu _)) HP H0) in Cy.
  rewrite (scatter_zero params _ _ _ (proj1 (Hu _)) HP H0) in Cz.
  destruct (generated h params (random_calls w)) as [ps cs].
  exists w', (length (drawables w)), ps, cs.
  split; [done|]. split; [done|]. split; [done|]. cbn zeta.
  cbn [fst snd] in Cx, Cy, Cz. rewrite Cx, Cy, Cz. simpl.
  repeat split; do 2 f_equal; ring.
Qed.

Lemma spiral_without_randomness_witness :
  reachable browser initial /\ allocates browser no_scatter
  /\ valid_params no_scatter /\ uniform_draws browser
  /\ parameters.randomness no_scatter = 0
  /\ (Z.of_nat 1 < parameters.count no_scatter)%Z
  /\ exists w' id positions colors,
       generateGalaxy browser no_scatter initial = (Ok tt, w')
       /\ points w' = Some id
       /\ buffers_of w' id = Some (positions, colors)
       /\ positions !! 3%nat
          = Some (Finite (Rtrigo_def.cos (1 / 3 * (2 * Rtrigo1.PI)
                                          + 1 / 2 * 5 * 1) * (1 / 2 * 5)))
       /\ positions !! 4%nat = Some (Finite 0).
Proof.
  assert (Ha : allocates browser no_scatter) by (unfold allocates; simpl; lia).
  assert (Hv : valid_params no_scatter).
  { split; simpl; try lia; try lra; unfold valid_rgb; simpl;
      repeat split; lra. }
  assert (Hi : (Z.of_nat 1 < parameters.count no_scatter)%Z) by (simpl; lia).
  split; [apply reach_initial|]. split; [exact Ha|]. split; [exact Hv|].
  split; [apply browser_uniform|]. split; [reflexivity|]. split; [exact Hi|].
  destruct (spiral_without_randomness browser no_scatter initial 1
              (reach_initial browser) Ha Hv browser_uniform eq_refl Hi)
    as (w' & id & ps & cs & H1 & H2 & H3 & H4 & H5 & _).
  exists w', id, ps, cs. repeat split; assumption.
Defined.

(** ** Regeneration *)

Lemma regenerate_run h params w p :
  consistent w -> points w = Some p ->
  exists g m,
    geometry w = Some g /\ material w = Some m
    /\ (g < length (geometries w))%nat /\ (m < length (materials w))%nat
    /\ (p < length (drawables w))%nat
    /\ attached (cleaned w p g m) = []
    /\ generateGalaxy h params w
       = if allocates_dec h params
         then (Ok tt, built h params (cleaned w p g m))
         else (Throw RangeError, failed params (cleaned w p g m)).
Proof.
  unfold consistent. intros Hc Hp. rewrite Hp in Hc.
  destruct Hc as ([g [Hg Lg]] & [m [Hm Lm]] & Lp & Hatt).
  exists g, m. repeat split; auto using attached_cleaned, generate_active.
Qed.

Lemma remove_child_subset c x l : In x (remove_child c l) -> In x l.
Proof.
  induction l as [|y l IH]; simpl; [done|].
  destruct (decide (y = c)); simpl; tauto.
Qed.

Lemma not_attached w p : attached w = [] -> ~ In (PointsObject p) (scene w).
Proof.
  unfold attached. intros H Hin.
  assert (Hf : In (PointsObject p) (List.filter is_points (scene w)))
    by (apply List.filter_In; split; [exact Hin | reflexivity]).
  rewrite H in Hf. destruct Hf.
Qed.

Lemma not_attached_built h params w p :
  attached w = [] -> (p < length (drawables w))%nat ->
  ~ In (PointsObject p) (scene (built h params w)).
Proof.
  intros H Lp. cbn [scene built]. rewrite List.in_app_iff. intros [Hin|Hin].
  - apply remove_child_subset in Hin. by apply (not_attached w p H).
  - destruct Hin as [Heq|[]]. inversion Heq. lia.
Qed.

Lemma disposed_geometry (l : list BufferGeometry) g tail :
  (g < length l)%nat ->
  exists x,
    (alter (fun x => Build_BufferGeometry (position x) (color x) true) g l
       ++ tail) !! g = Some x
    /\ geometry_disposed x = true.
Proof.
  intros Lg. destruct (lookup_lt_is_Some_2 l g Lg) as [x Hx].
  exists (Build_BufferGeometry (position x) (color x) true).
  split; [|reflexivity].
  rewrite lookup_app_l by (rewrite length_alter; exact Lg).
  rewrite list_lookup_alter_eq, Hx. reflexivity.
Qed.

Lemma disposed_material (l : list PointsMaterial) m tail :
  (m < length l)%nat ->
  exists x,
    (alter (fun x => Build_PointsMaterial (material_size x) (sizeAttenuation x)
       (depthWrite x) (additiveBlending x) (vertexColors x) true) m l
       ++ tail) !! m = Some x
    /\ material_disposed x = true.
Proof.
  intros Lm. destruct (lookup_lt_is_Some_2 l m Lm) as [x Hx].
  exists (Build_PointsMaterial (material_size x) (sizeAttenuation x)
            (depthWrite x) (additiveBlending x) (vertexColors x) true).
  split; [|reflexivity].
  rewrite lookup_app_l by (rewrite length_alter; exact Lm).
  rewrite list_lookup_alter_eq, Hx. reflexivity.
Qed.

Lemma loaded_run :
  generateGalaxy browser defaults initial = (Ok tt, loaded).
Proof.
  rewrite (generate_idle browser defaults initial eq_refl).
  destruct (allocates_dec browser defaults) as [_|Hn]; [reflexivity|].
  destruct (Hn browser_allocates_defaults).
Qed.

Lemma loaded_reachable : reachable browser loaded.
Proof.
  exact (reach_generate browser defaults initial (Ok tt) loaded
           (reach_initial browser) loaded_run).
Qed.

Lemma resized_run : generateGalaxy browser smaller loaded = (Ok tt, resized).
Proof.
  rewrite (generate_active browser smaller loaded 0 0 0 eq_refl eq_refl
             eq_refl).
  destruct (allocates_dec browser smaller) as [_|Hn]; [reflexivity|].
  destruct Hn. unfold allocates; simpl. lia.
Qed.

Lemma resized_reachable : reachable browser resized.
Proof.
  exact (reach_generate browser smaller loaded (Ok tt) resized
           loaded_reachable resized_run).
Qed.

Lemma with_camera_reachable : reachable browser with_camera.
Proof.
  exact (reach_camera browser loaded (Ok tt) with_camera loaded_reachable
           eq_refl).
Qed.

(** C1, as the code has it: a call made while [points] holds a drawable first
    disposes the geometry and the material in hand and detaches that drawable,
    and only then creates the next geometry and allocates, fills and attaches
    the next field. When the allocation fails the call throws a RangeError
    with the previous field already disposed and detached, nothing attached,
    and [points] still holding the detached drawable. *)
Theorem regenerate_disposes_before_generating h params w p r w' :
  reachable h w -> points w = Some p ->
  generateGalaxy h params w = (r, w') ->
  exists g m,
    geometry w = Some g /\ material w = Some m
    /\ (exists x, geometries w' !! g = Some x /\ geometry_disposed x = true)
    /\ (exists x, materials w' !! m = Some x /\ material_disposed x = true)
    /\ ~ In (PointsObject p) (scene w')
    /\ let len := (parameters.count params * 3)%Z in
       (allocates h params /\ r = Ok tt
        /\ trace w'
           = trace w ++
             [GeometryDispose g; MaterialDispose m; SceneRemove p;
              NewFloat32Array len; NewFloat32Array len;
              SceneAdd (PointsObject (length (drawables w)))])
       \/ (~ allocates h params /\ r = Throw RangeError
           /\ trace w'
              = trace w ++
                [GeometryDispose g; MaterialDispose m; SceneRemove p;
                 NewFloat32Array len]
           /\ points w' = Some p /\ attached w' = []).
Proof.
  intros Hr Hp Hrun.
  destruct (regenerate_run h params w p (reachable_consistent h w Hr) Hp)
    as (g & m & Hg & Hm & Lg & Lm & Lp & Hcl & Heq).
  rewrite Heq in Hrun. exists g, m. split; [done|]. split; [done|].
  destruct (allocates_dec h params) as [Ha|Ha];
    inversion Hrun; subst; clear Hrun.
  - split; [apply disposed_geometry; exact Lg|].
    split; [apply disposed_material; exact Lm|].
    split; [apply not_attached_built; [exact Hcl | exact Lp]|].
    left. split; [done|]. split; [done|].
    cbn [trace built cleaned drawables]. by rewrite <- app_assoc.
  - split; [apply disposed_geometry; exact Lg|].
    split.
    { cbn [materials failed]. rewrite <- (app_nil_r (materials _)).
      apply disposed_material; exact Lm. }
    split; [apply (not_attached (failed params (cleaned w p g m))); exact Hcl|].
    right. split; [done|]. split; [done|].
    split; [cbn [trace failed cleaned]; by rewrite <- app_assoc|].
    split; [reflexivity | exact Hcl].
Qed.

Lemma regenerate_disposes_before_generating_witness :
  reachable browser loaded /\ points loaded = Some 0%nat
  /\ exists w',
       generateGalaxy browser defaults loaded = (Ok tt, w')
       /\ (exists x, geometries w' !! 0%nat = Some x
                     /\ geometry_disposed x = true)
       /\ ~ In (PointsObject 0) (scene w').
Proof.
  split; [apply loaded_reachable|]. split; [reflexivity|].
  destruct (generate_returns browser defaults loaded
              (reachable_consistent _ _ loaded_reachable)
              browser_allocates_defaults) as (w' & Hrun & _).
  exists w'. split; [exact Hrun|].
  destruct (regenerate_disposes_before_generating browser defaults loaded 0
              (Ok tt) w' loaded_reachable eq_refl Hrun)
    as (g & m & Hg & _ & Hd & _ & Hs & _).
  inversion Hg; subst g. split; [exact Hd | exact Hs].
Defined.

(** C1 as stated fails: with the first field on display, a call whose count
    is -1 disposes the geometry and the material and detaches the drawable
    before the allocation throws; the scene is left empty. *)
Lemma failed_regeneration_loses_field :
  reachable browser loaded /\ displayed loaded 0 0 0
  /\ exists w',
       generateGalaxy browser negative_count loaded = (Throw RangeError, w')
       /\ scene w' = []
       /\ ~ displayed w' 0 0 0
       /\ trace w'
          = [NewFloat32Array 300000; NewFloat32Array 300000;
             SceneAdd (PointsObject 0);
             GeometryDispose 0; MaterialDispose 0; SceneRemove 0;
             NewFloat32Array (-3)].
Proof.
  split; [apply loaded_reachable|]. split.
  { split; [reflexivity|]. split; eexists; split; reflexivity. }
  exists (failed negative_count (cleaned loaded 0 0 0)). split.
  { rewrite (generate_active browser negative_count loaded 0 0 0
               eq_refl eq_refl eq_refl).
    destruct (allocates_dec browser negative_count) as [[Ha _]|_];
      [|reflexivity].
    simpl in Ha. lia. }
  split; [reflexivity|]. split; [|reflexivity].
  intros [Hocc _]. discriminate Hocc.
Qed.

(** C8: in every state of the page at most one drawable is attached; a call
    made while [points] holds a drawable disposes and detaches it before the
    new one is attached, and leaves the new one alone in the scene; after two
    calls in a row that return, the one attached drawable is the second
    call's, with both arrays sized [3 * count] for the second parameters. *)
Theorem at_most_one_drawable h :
  (forall w, reachable h w -> (length (attached w) <= 1)%nat)
  /\ (forall params w p w',
        reachable h w -> points w = Some p ->
        generateGalaxy h params w = (Ok tt, w') ->
        exists g m rest,
          trace w'
          = trace w ++
            [GeometryDispose g; MaterialDispose m; SceneRemove p] ++ rest ++
            [SceneAdd (PointsObject (length (drawables w)))]
          /\ attached w' = [PointsObject (length (drawables w))]
          /\ p <> length (drawables w))
  /\ (forall first second w w1 w2,
        reachable h w ->
        generateGalaxy h first w = (Ok tt, w1) ->
        generateGalaxy h second w1 = (Ok tt, w2) ->
        exists id positions colors,
          attached w2 = [PointsObject id] /\ points w2 = Some id
          /\ buffers_of w2 id = Some (positions, colors)
          /\ Z.of_nat (length positions) = (3 * parameters.count second)%Z
          /\ Z.of_nat (length colors) = (3 * parameters.count second)%Z).
Proof.
  split; [|split].
  - intros w Hr. pose proof (reachable_consistent h w Hr) as Hc.
    unfold consistent in Hc. destruct (points w).
    + destruct Hc as (_ & _ & _ & [-> | ->]); simpl; lia.
    + rewrite Hc. simpl. lia.
  - intros params w p w' Hr Hp Hrun.
    destruct (regenerate_run h params w p (reachable_consistent h w Hr) Hp)
      as (g & m & _ & _ & _ & _ & Lp & Hcl & Heq).
    rewrite Heq in Hrun.
    destruct (allocates_dec h params); inversion Hrun; subst; clear Hrun.
    exists g, m, [NewFloat32Array (parameters.count params * 3);
                  NewFloat32Array (parameters.count params * 3)].
    split; [cbn [trace built cleaned drawables]; by rewrite <- app_assoc|].
    split; [exact (attached_built h params _ Hcl) | lia].
  - intros first second w w1 w2 Hr H1 H2.
    pose proof (reach_generate h first w _ _ Hr H1) as Hr1.
    pose proof (reachable_consistent h w1 Hr1) as Hc1.
    destruct (allocates_dec h second) as [Ha|Ha].
    + destruct (generate_returns h second w1 Hc1 Ha)
        as (w2' & Hrun & Hp & Hatt & Hb & _).
      rewrite H2 in Hrun. inversion Hrun; subst w2'.
      destruct (generated_length h second (random_calls w1)) as [L1 L2].
      destruct (generated h second (random_calls w1)) as [ps cs].
      exists (length (drawables w1)), ps, cs. simpl in L1, L2.
      unfold allocates in Ha. repeat split; auto; lia.
    + destruct (generate_throws h second w1 Hc1 Ha) as [w2' Hrun].
      rewrite H2 in Hrun. discriminate Hrun.
Qed.

Lemma at_most_one_drawable_witness :
  reachable browser initial
  /\ generateGalaxy browser defaults initial = (Ok tt, loaded)
  /\ generateGalaxy browser smaller loaded = (Ok tt, resized)
  /\ (length (attached loaded) <= 1)%nat
  /\ (length (attached resized) <= 1)%nat
  /\ (exists g m rest,
        trace resized
        = trace loaded ++
          [GeometryDispose g; MaterialDispose m; SceneRemove 0] ++ rest ++
          [SceneAdd (PointsObject 1)]
        /\ attached resized = [PointsObject 1]
        /\ 0%nat <> 1%nat)
  /\ exists id positions colors,
       attached resized = [PointsObject id] /\ points resized = Some id
       /\ buffers_of resized id = Some (positions, colors)
       /\ Z.of_nat (length positions) = 600%Z
       /\ Z.of_nat (length colors) = 600%Z.
Proof.
  destruct (at_most_one_drawable browser) as (H1 & H2 & H3).
  split; [apply reach_initial|]. split; [apply loaded_run|].
  split; [apply resized_run|].
  split; [exact (H1 loaded loaded_reachable)|].
  split; [exact (H1 resized resized_reachable)|].
  split; [exact (H2 smaller loaded 0%nat resized loaded_reachable eq_refl
                   resized_run)|].
  exact (H3 defaults smaller initial loaded resized (reach_initial browser)
           loaded_run resized_run).
Defined.

(** ** No validation *)

Lemma pow_positive u y :
  0 < u -> y <> 0 -> Math.pow u y = Finite (Rpower u y).
Proof.
  intros Hu Hy. unfold Math.pow.
  destruct (Req_dec_T y 0); [contradiction|].
  destruct (Req_dec_T u 0); [lra|].
  destruct (Rlt_dec 0 u); [reflexivity | contradiction].
Qed.

Lemma negative_scatter_invalid : ~ valid_params negative_scatter.
Proof. intros H. pose proof (valid_randomness _ H) as Hn. simpl in Hn. lra. Qed.

(** C2, as the code has it: nothing is validated. In any state of the page a
    call returns exactly when the host can allocate two arrays of [3 * count]
    cells, whatever the other fields hold, and the arrays are filled from the
    fields as given (the y cell of particle [i] is the scatter term with the
    [randomness], [randomnessPower] and [radius] passed in); otherwise the
    first allocation throws a RangeError and no array was allocated before
    it. *)
Theorem generate_validates_nothing h params w :
  reachable h w ->
  (allocates h params ->
   exists w' positions colors,
     generateGalaxy h params w = (Ok tt, w')
     /\ buffers_of w' (length (drawables w)) = Some (positions, colors)
     /\ forall i, (Z.of_nat i < parameters.count params)%Z ->
          let o := (random_calls w + 7 * i)%nat in
          positions !! (i * 3 + 1)%nat
          = Some (Math.pow (random_source h (3 + o))
                    (parameters.randomnessPower params)
                  * (if Rlt_dec (random_source h (4 + o)) 0.5 then 1 else -1)
                  * parameters.randomness params
                  * (Finite (random_source h o) * parameters.radius params))%js)
  /\ (~ allocates h params ->
      exists w' before,
        generateGalaxy h params w = (Throw RangeError, w')
        /\ trace w'
           = trace w ++ before ++
             [NewFloat32Array (parameters.count params * 3)%Z]
        /\ forall len, ~ In (NewFloat32Array len) before).
Proof.
  intros Hr. pose proof (reachable_consistent h w Hr) as Hc. split; intros Ha.
  - destruct (generate_returns h params w Hc Ha) as (w' & Hrun & _ & _ & Hb & _).
    pose proof (generated_cells h params (random_calls w)) as Hcells.
    destruct (generated h params (random_calls w)) as [ps cs].
    exists w', ps, cs. split; [done|]. split; [done|].
    intros i Hi. destruct (Hcells i Hi) as (_ & Hy & _). exact Hy.
  - destruct (points w) as [p|] eqn:Hp.
    + destruct (regenerate_run h params w p Hc Hp)
        as (g & m & _ & _ & _ & _ & _ & _ & Heq).
      destruct (allocates_dec h params); [contradiction|].
      exists (failed params (cleaned w p g m)),
        [GeometryDispose g; MaterialDispose m; SceneRemove p].
      split; [exact Heq|].
      split; [cbn [trace failed cleaned]; by rewrite <- app_assoc|].
      intros len [H|[H|[H|[]]]]; discriminate H.
    + exists (failed params w), []. rewrite (generate_idle h params w Hp).
      destruct (allocates_dec h params); [contradiction|].
      split; [reflexivity|]. split; [reflexivity|]. intros len [].
Qed.

Lemma generate_validates_nothing_witness :
  reachable browser initial /\ allocates browser negative_scatter
  /\ exists w' positions colors,
       generateGalaxy browser negative_scatter initial = (Ok tt, w')
       /\ buffers_of w' 0 = Some (positions, colors)
       /\ positions !! 1%nat
          = Some (Math.pow (1 / 2) 3 * (if Rlt_dec (1 / 2) 0.5 then 1 else -1)
                  * -1 * (Finite (1 / 2) * 5))%js.
Proof.
  assert (Ha : allocates browser negative_scatter)
    by (unfold allocates; simpl; lia).
  split; [apply reach_initial|]. split; [exact Ha|].
  destruct (proj1 (generate_validates_nothing browser negative_scatter initial
                     (reach_initial browser)) Ha)
    as (w' & ps & cs & Hrun & Hb & Hcells).
  exists w', ps, cs. split; [exact Hrun|]. split; [exact Hb|].
  apply (Hcells 0%nat). simpl. lia.
Defined.

(** C2 as stated fails: a negative [randomness] is outside its range, and the
    call made with it on page load returns, having allocated both arrays and
    attached the field; the y cell of the first particle carries the negative
    factor unchanged. *)
Lemma out_of_range_parameters_accepted :
  ~ valid_params negative_scatter
  /\ exists w' positions colors,
       generateGalaxy browser negative_scatter initial = (Ok tt, w')
       /\ trace w'
          = [NewFloat32Array 300000; NewFloat32Array 300000;
             SceneAdd (PointsObject 0)]
       /\ scene w' = [PointsObject 0]
       /\ buffers_of w' 0 = Some (positions, colors)
       /\ Z.of_nat (length positions) = 300000%Z
       /\ positions !! 1%nat
          = Some (Finite (Rpower (1 / 2) 3 * -1 * -1 * (1 / 2 * 5))).
Proof.
  split; [apply negative_scatter_invalid|].
  assert (Ha : allocates browser negative_scatter)
    by (unfold allocates; simpl; lia).
  pose proof (generated_cells browser negative_scatter 0 0) as Hcells.
  destruct (generated_length browser negative_scatter 0) as [L1 _].
  pose proof (buffers_of_built browser negative_scatter initial) as Hb.
  cbn [random_calls initial drawables length] in Hb.
  destruct (generated browser negative_scatter 0) as [ps cs].
  exists (built browser negative_scatter initial), ps, cs.
  split.
  { rewrite (generate_idle browser negative_scatter initial eq_refl).
    destruct (allocates_dec browser negative_scatter); [reflexivity|].
    contradiction. }
  split; [reflexivity|]. split; [reflexivity|]. split; [exact Hb|].
  split; [simpl in L1; rewrite L1; reflexivity|].
  destruct Hcells as (_ & Hy & _); [simpl; lia|].
  cbn [fst snd] in Hy. change (0 * 3 + 1)%nat with 1%nat in Hy. rewrite Hy.
  unfold position_y, scatter, radius_i. cbn [random_source browser
    parameters.randomnessPower parameters.randomness parameters.radius
    negative_scatter].
  rewrite pow_positive by lra.
  destruct (Rlt_dec (1 / 2) 0.5) as [Hlt|_]; [lra|]. reflexivity.
Qed.

(** ** Every call, case by case *)

Lemma generate_step h params w r w' :
  consistent w -> generateGalaxy h params w = (r, w') ->
  exists w1,
    ((points w = None /\ w1 = w)
     \/ exists p g m,
          points w = Some p /\ geometry w = Some g /\ material w = Some m
          /\ w1 = cleaned w p g m)
    /\ attached w1 = []
    /\ ((allocates h params /\ r = Ok tt /\ w' = built h params w1)
        \/ (~ allocates h params /\ r = Throw RangeError
            /\ w' = failed params w1)).
Proof.
  intros Hc Hrun. destruct (points w) as [p|] eqn:Hp.
  - destruct (regenerate_run h params w p Hc Hp)
      as (g & m & Hg & Hm & _ & _ & _ & Hcl & Heq).
    rewrite Heq in Hrun. exists (cleaned w p g m).
    split; [right; exists p, g, m; done|]. split; [exact Hcl|].
    destruct (allocates_dec h params); inversion Hrun; subst; [left|right];
      done.
  - rewrite (generate_idle h params w Hp) in Hrun. exists w.
    split; [left; done|].
    split; [unfold consistent in Hc; by rewrite Hp in Hc|].
    destruct (allocates_dec h params); inversion Hrun; subst; [left|right];
      done.
Qed.

Lemma reachable_ind_calls h (P : world -> Prop) :
  P initial ->
  (forall params w w1,
     reachable h w -> P w ->
     ((points w = None /\ w1 = w)
      \/ exists p g m,
           points w = Some p /\ geometry w = Some g /\ material w = Some m
           /\ w1 = cleaned w p g m) ->
     attached w1 = [] ->
     (allocates h params -> P (built h params w1))
     /\ (~ allocates h params -> P (failed params w1))) ->
  (forall w r w', reachable h w -> P w -> scene_add Camera w = (r, w') ->
                  P w') ->
  forall w, reachable h w -> P w.
Proof.
  intros H0 Hgen Hcam w Hr.
  induction Hr as [|params w r w' Hr IH Hrun|w r w' Hr IH Hrun].
  - exact H0.
  - destruct (generate_step h params w r w' (reachable_consistent h w Hr) Hrun)
      as (w1 & Hw1 & Hatt & Hout).
    destruct (Hgen params w w1 Hr IH Hw1 Hatt) as [Hb Hf].
    destruct Hout as [(Ha & _ & ->)|(Ha & _ & ->)]; auto.
  - eapply Hcam; eauto.
Qed.

(** ** Resources *)

Lemma retired_idle w : points w = None -> blank w -> retired w.
Proof.
  intros Hp Hb. destruct (Hb Hp) as [Hm Hg]. split.
  - intros id x Hx Hpos _. apply Hpos. eauto.
  - intros id x Hx _. rewrite Hm in Hx. discriminate Hx.
Qed.

Lemma retired_cleaned w p g m :
  no_leak w -> geometry w = Some g -> material w = Some m ->
  retired (cleaned w p g m).
Proof.
  intros [Lg Lm] Hg Hm. split; cbn [geometries materials cleaned].
  - intros id x Hx Hpos Hd. destruct (decide (id = g)) as [->|Hne].
    + rewrite list_lookup_alter_eq in Hx.
      destruct (geometries w !! g); simpl in Hx; [|discriminate].
      inversion Hx; subst x. discriminate Hd.
    + rewrite list_lookup_alter_ne in Hx by congruence.
      pose proof (Lg id x Hx Hpos Hd) as Heq. congruence.
  - intros id x Hx Hd. destruct (decide (id = m)) as [->|Hne].
    + rewrite list_lookup_alter_eq in Hx.
      destruct (materials w !! m); simpl in Hx; [|discriminate].
      inversion Hx; subst x. discriminate Hd.
    + rewrite list_lookup_alter_ne in Hx by congruence.
      pose proof (Lm id x Hx Hd) as Heq. congruence.
Qed.

Lemma lookup_snoc_cases {A} (l : list A) (y : A) id x :
  (l ++ [y]) !! id = Some x ->
  l !! id = Some x \/ (id = length l /\ x = y).
Proof.
  intros H. destruct (decide (id < length l)%nat) as [Hlt|Hge].
  - left. by rewrite lookup_app_l in H.
  - right. rewrite lookup_app_r in H by lia.
    destruct (id - length l)%nat as [|k] eqn:E; simpl in H.
    + split; [lia | congruence].
    + discriminate H.
Qed.

Lemma no_leak_built h params w : retired w -> no_leak (built h params w).
Proof.
  intros [Rg Rm]. split; cbn [geometries materials geometry material built].
  - intros id x Hx Hpos Hd.
    destruct (lookup_snoc_cases _ _ _ _ Hx) as [Hold|[-> _]]; [|done].
    destruct (Rg id x Hold Hpos Hd).
  - intros id x Hx Hd.
    destruct (lookup_snoc_cases _ _ _ _ Hx) as [Hold|[-> _]]; [|done].
    destruct (Rm id x Hold Hd).
Qed.

Lemma no_leak_failed params w : retired w -> no_leak (failed params w).
Proof.
  intros [Rg Rm]. split; cbn [geometries materials geometry material failed].
  - intros id x Hx Hpos Hd.
    destruct (lookup_snoc_cases _ _ _ _ Hx) as [Hold|[-> _]]; [|done].
    destruct (Rg id x Hold Hpos Hd).
  - intros id x Hx Hd. destruct (Rm id x Hx Hd).
Qed.

Lemma tidy_reachable h w : reachable h w -> no_leak w /\ blank w.
Proof.
  revert w. apply (reachable_ind_calls h (fun w => no_leak w /\ blank w)).
  - split; [split|]; simpl.
    + intros id x Hx. discriminate Hx.
    + intros id x Hx. discriminate Hx.
    + intros _. split; [done|]. intros id x Hx. discriminate Hx.
  - intros params w0 w1 Hr [Hl Hb] Hw1 _.
    assert (Hret : retired w1).
    { destruct Hw1 as [[Hp ->]|(p & g & m & _ & Hg & Hm & ->)].
      - by apply retired_idle.
      - by apply retired_cleaned. }
    split; intros _.
    + split; [by apply no_leak_built|]. intros Hp. discriminate Hp.
    + split; [by apply no_leak_failed|].
      destruct Hw1 as [[Hp ->]|(p & g & m & _ & _ & _ & ->)].
      * intros _. destruct (Hb Hp) as [Hm Hg]. split; [exact Hm|].
        cbn [geometries failed]. intros id x Hx.
        destruct (lookup_snoc_cases _ _ _ _ Hx) as [Hold|[_ ->]];
          [eauto | reflexivity].
      * intros Hp. discriminate Hp.
  - intros w0 r w' _ [Hl Hb] Hrun.
    unfold scene_add, mbind, M_bind in Hrun. simpl in Hrun.
    inversion Hrun; subst; clear Hrun. split; [exact Hl | exact Hb].
Qed.

(** X2: whatever calls were made, returning or throwing, every geometry that
    carries buffers and every material is disposed, except the geometry and
    the material the variables [geometry] and [material] hold: superseded
    fields are never left undisposed. *)
Theorem superseded_fields_are_disposed h w :
  reachable h w ->
  (forall id x, geometries w !! id = Some x ->
     position x <> None -> geometry w <> Some id ->
     geometry_disposed x = true)
  /\ (forall id x, materials w !! id = Some x ->
        material w <> Some id -> material_disposed x = true).
Proof.
  intros Hr. destruct (tidy_reachable h w Hr) as [[Lg Lm] _]. split.
  - intros id x Hx Hpos Hne. destruct (geometry_disposed x) eqn:Hd; [done|].
    destruct (Hne (Lg id x Hx Hpos Hd)).
  - intros id x Hx Hne. destruct (material_disposed x) eqn:Hd; [done|].
    destruct (Hne (Lm id x Hx Hd)).
Qed.

Lemma superseded_fields_are_disposed_witness :
  reachable browser resized
  /\ geometry resized = Some 1%nat /\ material resized = Some 1%nat
  /\ (exists x,
        geometries resized !! 0%nat = Some x /\ position x <> None
        /\ geometry_disposed x = true)
  /\ (exists x,
        materials resized !! 0%nat = Some x /\ material_disposed x = true).
Proof.
  destruct (superseded_fields_are_disposed browser resized resized_reachable)
    as [Hg Hm].
  split; [apply resized_reachable|]. split; [reflexivity|].
  split; [reflexivity|]. split.
  - exists (Build_BufferGeometry (Some (generated browser defaults 0).1)
              (Some (generated browser defaults 0).2) true).
    assert (Hl : geometries resized !! 0%nat
                 = Some (Build_BufferGeometry
                           (Some (generated browser defaults 0).1)
                           (Some (generated browser defaults 0).2) true))
      by reflexivity.
    assert (Hp : position (Build_BufferGeometry
                             (Some (generated browser defaults 0).1)
                             (Some (generated browser defaults 0).2) true)
                 <> None) by discriminate.
    split; [exact Hl|]. split; [exact Hp|].
    apply (Hg 0%nat _ Hl Hp).
    change (Some 1%nat <> Some 0%nat). discriminate.
  - exists (Build_PointsMaterial 0.01 true false true true true).
    assert (Hl : materials resized !! 0%nat
                 = Some (Build_PointsMaterial 0.01 true false true true true))
      by reflexivity.
    split; [exact Hl|].
    apply (Hm 0%nat _ Hl).
    change (Some 1%nat <> Some 0%nat). discriminate.
Defined.

Lemma on_display_built h params w :
  on_display (built h params w) (length (drawables w)).
Proof.
  unfold on_display. cbn [points geometry material drawables geometries
    materials built].
  do 6 eexists. split; [reflexivity|]. split; [reflexivity|].
  split; [reflexivity|].
  split; [apply (list_lookup_middle (drawables w) []); reflexivity|].
  split; [apply (list_lookup_middle (geometries w) []); reflexivity|].
  split; [reflexivity|]. split; [reflexivity|]. split; [reflexivity|].
  split; [apply (list_lookup_middle (materials w) []); reflexivity|].
  reflexivity.
Qed.

(** X3: in every state of the page, a drawable attached to the scene is the
    one [points] holds, and it is made of the geometry and the material that
    [geometry] and [material] hold, neither of them disposed, the geometry
    carrying both buffers: the scene never shows a disposed field. *)
Theorem attached_field_is_live h w p :
  reachable h w -> In (PointsObject p) (scene w) -> on_display w p.
Proof.
  intros Hr Hin.
  assert (Hatt : attached w = [PointsObject p]).
  { pose proof (reachable_consistent h w Hr) as Hc.
    assert (Hf : In (PointsObject p) (attached w))
      by (apply List.filter_In; split; [exact Hin | reflexivity]).
    unfold consistent in Hc. destruct (points w) as [q|].
    - destruct Hc as (_ & _ & _ & [Hc|Hc]); rewrite Hc in Hf |- *.
      + destruct Hf.
      + destruct Hf as [<-|[]]. reflexivity.
    - rewrite Hc in Hf. destruct Hf. }
  clear Hin. revert p Hatt. revert w Hr.
  apply (reachable_ind_calls h
    (fun w => forall p, attached w = [PointsObject p] -> on_display w p)).
  - intros p Hp. discriminate Hp.
  - intros params w0 w1 _ _ _ Hatt1. split; intros _ p Hp.
    + rewrite (attached_built h params w1 Hatt1) in Hp.
      inversion Hp; subst p. apply on_display_built.
    + change (attached (failed params w1)) with (attached w1) in Hp.
      rewrite Hatt1 in Hp. discriminate Hp.
  - intros w0 r w' _ IH Hrun p Hp.
    unfold scene_add, mbind, M_bind in Hrun. simpl in Hrun.
    inversion Hrun; subst; clear Hrun.
    unfold attached in Hp; simpl in Hp.
    rewrite List.filter_app, filter_remove_camera in Hp. simpl in Hp.
    rewrite app_nil_r in Hp. exact (IH p Hp).
Qed.

Lemma attached_field_is_live_witness :
  reachable browser loaded /\ In (PointsObject 0) (scene loaded)
  /\ on_display loaded 0.
Proof.
  assert (Hin : In (PointsObject 0) (scene loaded)) by (left; reflexivity).
  split; [apply loaded_reachable|]. split; [exact Hin|].
  exact (attached_field_is_live browser loaded 0 loaded_reachable Hin).
Defined.

(** ** The rest of the scene *)

Lemma others_remove_points p l :
  List.filter (fun c => negb (is_points c)) (remove_child (PointsObject p) l)
  = List.filter (fun c => negb (is_points c)) l.
Proof.
  induction l as [|x l IH]; simpl; [done|].
  destruct (decide (x = PointsObject p)) as [->|Hne]; [reflexivity|].
  simpl. by rewrite IH.
Qed.

Lemma generate_keeps_others h params w r w' :
  reachable h w -> generateGalaxy h params w = (r, w') ->
  others w' = others w
  /\ (In Camera (scene w) -> In Camera (scene w')).
Proof.
  intros Hr Hrun.
  destruct (generate_step h params w r w' (reachable_consistent h w Hr) Hrun)
    as (w1 & Hw1 & _ & Hout).
  assert (H1 : others w1 = others w).
  { destruct Hw1 as [[_ ->]|(p & g & m & _ & _ & _ & ->)]; [reflexivity|].
    unfold others; cbn [scene cleaned]. apply others_remove_points. }
  assert (H2 : others w' = others w).
  { rewrite <- H1. destruct Hout as [(_ & _ & ->)|(_ & _ & ->)];
      [|reflexivity].
    unfold others; cbn [scene built].
    rewrite List.filter_app, others_remove_points. simpl.
    apply app_nil_r. }
  split; [exact H2|]. intros Hin.
  assert (Hf : In Camera (others w))
    by (apply List.filter_In; split; [exact Hin | reflexivity]).
  rewrite <- H2 in Hf. apply List.filter_In in Hf. tauto.
Qed.

(** X4: a call, whether it returns or throws, leaves every child of the scene
    that is not a generated field where it was and in the same order; the
    camera added at line 388 stays in the scene through every
    regeneration. *)
Theorem regeneration_keeps_other_children h params w r w' :
  reachable h w -> generateGalaxy h params w = (r, w') ->
  others w' = others w
  /\ (In Camera (scene w) -> In Camera (scene w')).
Proof. apply generate_keeps_others. Qed.

Lemma regeneration_keeps_other_children_witness :
  reachable browser with_camera
  /\ scene with_camera = [PointsObject 0; Camera]
  /\ exists w',
       generateGalaxy browser smaller with_camera = (Ok tt, w')
       /\ others w' = [Camera]
       /\ In Camera (scene w').
Proof.
  split; [apply with_camera_reachable|]. split; [reflexivity|].
  destruct (generate_returns browser smaller with_camera
              (reachable_consistent _ _ with_camera_reachable))
    as (w' & Hrun & _).
  { unfold allocates; simpl. lia. }
  exists w'. split; [exact Hrun|].
  destruct (regeneration_keeps_other_children browser smaller with_camera _ w'
              with_camera_reachable Hrun) as [Ho Hc].
  split; [exact Ho|]. apply Hc. right. left. reflexivity.
Defined.

(** ** How far a particle strays *)

Lemma Rabs_between a b : Rabs a <= b -> - b <= a <= b.
Proof. unfold Rabs. destruct (Rcase_abs a); lra. Qed.

Lemma pow_unit u y :
  0 <= u < 1 -> 0 <= y -> exists v, Math.pow u y = Finite v /\ 0 <= v <= 1.
Proof.
  intros [Hu0 Hu1] Hy. unfold Math.pow.
  destruct (Req_dec_T y 0); [exists 1; split; [reflexivity | lra]|].
  destruct (Req_dec_T u 0).
  - destruct (Rlt_dec 0 y); [|lra]. exists 0. split; [reflexivity | lra].
  - destruct (Rlt_dec 0 u); [|lra]. exists (Rpower u y).
    split; [reflexivity|]. split.
    + unfold Rpower. left. apply exp_pos.
    + replace 1 with (Rpower 1 y).
      * apply Rle_Rpower_l; lra.
      * unfold Rpower. rewrite ln_1, Rmult_0_r. apply exp_0.
Qed.

Lemma scatter_bound params u s r :
  0 <= u < 1 -> 0 <= parameters.randomnessPower params ->
  0 <= parameters.randomness params -> 0 <= r ->
  exists d, scatter params u s (Finite r) = Finite d
            /\ Rabs d <= parameters.randomness params * r.
Proof.
  intros Hu Hp Hn Hr. unfold scatter.
  destruct (pow_unit u _ Hu Hp) as (v & -> & Hv).
  assert (Hnr : 0 <= parameters.randomness params * r)
    by (apply Rmult_le_pos; assumption).
  set (k := parameters.randomness params * r) in *.
  assert (Hb : 0 <= v * k <= k) by nra.
  destruct (Rlt_dec s 0.5); simpl; eexists; (split; [reflexivity|]).
  - replace (v * 1 * parameters.randomness params * r) with (v * k)
      by (unfold k; ring).
    apply Rabs_le; lra.
  - replace (v * -1 * parameters.randomness params * r) with (- (v * k))
      by (unfold k; ring).
    apply Rabs_le; lra.
Qed.

Lemma branchAngle_finite params i :
  parameters.branches params <> 0%Z ->
  branchAngle params i
  = Finite (IZR (Z.rem (Z.of_nat i) (parameters.branches params))
            / IZR (parameters.branches params) * Rtrigo1.PI * 2).
Proof.
  intros Hb. unfold branchAngle, js_rem.
  destruct (Z.eqb_spec (parameters.branches params) 0); [contradiction|].
  unfold Math.PI; simpl.
  destruct (Req_dec_T (IZR (parameters.branches params)) 0) as [H0|_];
    [|reflexivity].
  apply eq_IZR_R0 in H0. contradiction.
Qed.

Lemma generated_positions_bounded h params off i :
  uniform_draws h ->
  parameters.branches params <> 0%Z ->
  0 <= parameters.radius params ->
  0 <= parameters.randomness params ->
  0 <= parameters.randomnessPower params ->
  (Z.of_nat i < parameters.count params)%Z ->
  exists x y z,
    (generated h params off).1 !! (i * 3)%nat = Some (Finite x)
    /\ (generated h params off).1 !! (i * 3 + 1)%nat = Some (Finite y)
    /\ (generated h params off).1 !! (i * 3 + 2)%nat = Some (Finite z)
    /\ let radius_i :=
         random_source h (off + 7 * i) * parameters.radius params in
       let a :=
         IZR (Z.rem (Z.of_nat i) (parameters.branches params))
         / IZR (parameters.branches params) * Rtrigo1.PI * 2
         + radius_i * parameters.spin params in
       let reach := parameters.randomness params * radius_i in
       Rabs (x - Rtrigo_def.cos a * radius_i) <= reach
       /\ Rabs y <= reach
       /\ Rabs (z - Rtrigo_def.sin a * radius_i) <= reach
       /\ Rabs x
          <= parameters.radius params * (1 + parameters.randomness params)
       /\ Rabs y <= parameters.radius params * parameters.randomness params
       /\ Rabs z
          <= parameters.radius params * (1 + parameters.randomness params).
Proof.
  intros Hu Hb Hrad Hn HP Hi.
  destruct (generated_cells h params off i Hi) as (Cx & Cy & Cz & _).
  unfold position_x, position_y, position_z, angle, spinAngle, radius_i
    in Cx, Cy, Cz.
  rewrite (branchAngle_finite params i Hb) in Cx, Cz.
  cbn [num_mul num_add Math.cos Math.sin] in Cx, Cy, Cz.
  set (u := random_source h (off + 7 * i)) in *.
  set (ri := u * parameters.radius params) in *.
  assert (Hri : 0 <= ri <= parameters.radius params)
    by (destruct (Hu (off + 7 * i)%nat); unfold ri, u; nra).
  destruct (scatter_bound params _ (random_source h (2 + (off + 7 * i)))
              ri (Hu (1 + (off + 7 * i))%nat) HP Hn (proj1 Hri))
    as (dx & Ex & Bx).
  destruct (scatter_bound params _ (random_source h (4 + (off + 7 * i)))
              ri (Hu (3 + (off + 7 * i))%nat) HP Hn (proj1 Hri))
    as (dy & Ey & By).
  destruct (scatter_bound params _ (random_source h (6 + (off + 7 * i)))
              ri (Hu (5 + (off + 7 * i))%nat) HP Hn (proj1 Hri))
    as (dz & Ez & Bz).
  rewrite Ex in Cx. rewrite Ey in Cy. rewrite Ez in Cz.
  cbn [num_add] in Cx, Cz.
  do 3 eexists. split; [exact Cx|]. split; [exact Cy|].
  split; [exact Cz|]. cbn zeta. fold u. fold ri.
  set (a := IZR (Z.rem (Z.of_nat i) (parameters.branches params))
            / IZR (parameters.branches params) * Rtrigo1.PI * 2
            + ri * parameters.spin params) in *.
  pose proof (COS_bound a) as Hc. pose proof (SIN_bound a) as Hs.
  apply Rabs_between in Bx, By, Bz.
  assert (Hcr : - ri <= Rtrigo_def.cos a * ri <= ri) by nra.
  assert (Hsr : - ri <= Rtrigo_def.sin a * ri <= ri) by nra.
  assert (Hnr : parameters.randomness params * ri
                <= parameters.radius params * parameters.randomness params)
    by nra.
  repeat split; apply Rabs_le; lra.
Qed.

Lemma fround_in_range x : Rabs x <= 60 -> fround (Finite x) = Finite x.
Proof.
  intros Hx. unfold fround, float32_overflow.
  destruct (Rlt_dec _ _) as [_|Hn]; [reflexivity | lra].
Qed.

(** X5: with draws in [[0, 1)], a non-zero [branches], a non-negative
    [randomnessPower] and [radius], [spin] and [randomness] within the panel's
    ranges ([[0, 20]], [[-5, 5]], [[0, 2]]), every coordinate of every
    particle is a real number within [randomness * radius_i] of the point
    [(cos a * radius_i, 0, sin a * radius_i)] of its arm, so the whole field
    fits the box of half-width [radius * (1 + randomness)] and half-height
    [radius * randomness], and every coordinate is stored as a number, not as
    an infinity. *)
Theorem particle_within_scatter h params w i :
  reachable h w -> allocates h params -> uniform_draws h ->
  parameters.branches params <> 0%Z ->
  0 <= parameters.radius params <= 20 ->
  -5 <= parameters.spin params <= 5 ->
  0 <= parameters.randomness params <= 2 ->
  0 <= parameters.randomnessPower params ->
  (Z.of_nat i < parameters.count params)%Z ->
  exists w' id positions colors x y z,
    generateGalaxy h params w = (Ok tt, w')
    /\ points w' = Some id
    /\ buffers_of w' id = Some (positions, colors)
    /\ positions !! (i * 3)%nat = Some (Finite x)
    /\ positions !! (i * 3 + 1)%nat = Some (Finite y)
    /\ positions !! (i * 3 + 2)%nat = Some (Finite z)
    /\ fround (Finite x) = Finite x
    /\ fround (Finite y) = Finite y
    /\ fround (Finite z) = Finite z
    /\ let radius_i :=
         random_source h (random_calls w + 7 * i) * parameters.radius params in
       let a :=
         IZR (Z.rem (Z.of_nat i) (parameters.branches params))
         / IZR (parameters.branches params) * Rtrigo1.PI * 2
         + radius_i * parameters.spin params in
       let reach := parameters.randomness params * radius_i in
       Rabs (x - Rtrigo_def.cos a * radius_i) <= reach
       /\ Rabs y <= reach
       /\ Rabs (z - Rtrigo_def.sin a * radius_i) <= reach
       /\ Rabs x
          <= parameters.radius params * (1 + parameters.randomness params)
       /\ Rabs y <= parameters.radius params * parameters.randomness params
       /\ Rabs z
          <= parameters.radius params * (1 + parameters.randomness params).
Proof.
  intros Hr Ha Hu Hb Hrad _ Hn HP Hi.
  destruct (generate_returns h params w (reachable_consistent h w Hr) Ha)
    as (w' & Hrun & Hp & _ & Hbuf & _).
  destruct (generated_positions_bounded h params (random_calls w) i Hu Hb
              (proj1 Hrad) (proj1 Hn) HP Hi)
    as (x & y & z & Cx & Cy & Cz & Hbounds).
  destruct (generated h params (random_calls w)) as [ps cs].
  cbn [fst snd] in Cx, Cy, Cz.
  exists w', (length (drawables w)), ps, cs, x, y, z.
  split; [exact Hrun|]. split; [exact Hp|]. split; [exact Hbuf|].
  split; [exact Cx|]. split; [exact Cy|]. split; [exact Cz|].
  pose proof Hbounds as Hbox0. cbn zeta in Hbox0.
  destruct Hbox0 as (_ & _ & _ & Bx & By & Bz).
  assert (Hbox : parameters.radius params
                 * (1 + parameters.randomness params) <= 60) by nra.
  assert (Hbox' : parameters.radius params * parameters.randomness params
                  <= 60) by nra.
  split; [apply fround_in_range; lra|].
  split; [apply fround_in_range; lra|].
  split; [apply fround_in_range; lra|].
  exact Hbounds.
Qed.

Lemma particle_within_scatter_witness :
  reachable browser initial /\ allocates browser defaults
  /\ uniform_draws browser
  /\ exists w' id positions colors x y z,
       generateGalaxy browser defaults initial = (Ok tt, w')
       /\ points w' = Some id
       /\ buffers_of w' id = Some (positions, colors)
       /\ positions !! 6%nat = Some (Finite x)
       /\ positions !! 7%nat = Some (Finite y)
       /\ positions !! 8%nat = Some (Finite z)
       /\ fround (Finite x) = Finite x
       /\ Rabs x <= 5 * (1 + 0.2) /\ Rabs y <= 5 * 0.2
       /\ Rabs z <= 5 * (1 + 0.2).
Proof.
  split; [apply reach_initial|]. split; [apply browser_allocates_defaults|].
  split; [apply browser_uniform|].
  destruct (particle_within_scatter browser defaults initial 2
              (reach_initial browser) browser_allocates_defaults
              browser_uniform)
    as (w' & id & ps & cs & x & y & z & H1 & H2 & H3 & H4 & H5 & H6
        & F1 & _ & _ & _ & _ & _ & H7 & H8 & H9);
    [simpl; lia | simpl; lra | simpl; lra | simpl; lra | simpl; lra
     | simpl; lia |].
  exists w', id, ps, cs, x, y, z. repeat split; assumption.
Defined.

(** ** What each array depends on *)

Lemma fill_colors_agree h p1 p2 :
  parameters.radius p1 = parameters.radius p2 ->
  parameters.insideColor p1 = parameters.insideColor p2 ->
  parameters.outsideColor p1 = parameters.outsideColor p2 ->
  forall n i off b1 b2,
    b1.2 = b2.2 -> (fill h p1 n i off b1).2 = (fill h p2 n i off b2).2.
Proof.
  intros Hr Hi Ho. induction n as [|n IH]; intros i off b1 b2 Hb; [exact Hb|].
  cbn [fill]. apply IH. unfold write_particle, mixedColor, radius_i.
  cbn [snd]. rewrite Hr, Hi, Ho, Hb. reflexivity.
Qed.

Lemma fill_positions_agree h p1 p2 :
  parameters.radius p1 = parameters.radius p2 ->
  parameters.branches p1 = parameters.branches p2 ->
  parameters.spin p1 = parameters.spin p2 ->
  parameters.randomness p1 = parameters.randomness p2 ->
  parameters.randomnessPower p1 = parameters.randomnessPower p2 ->
  forall n i off b1 b2,
    b1.1 = b2.1 -> (fill h p1 n i off b1).1 = (fill h p2 n i off b2).1.
Proof.
  intros Hr Hb Hs Hn Hp.
  induction n as [|n IH]; intros i off b1 b2 Hbuf; [exact Hbuf|].
  cbn [fill]. apply IH.
  unfold write_particle, position_x, position_y, position_z, angle, spinAngle,
    branchAngle, scatter, radius_i.
  cbn [fst]. rewrite Hr, Hb, Hs, Hn, Hp, Hbuf. reflexivity.
Qed.

(** X6: of two calls made in the same state with the same [count], the colour
    arrays are equal cell for cell as soon as [radius] and the two colours
    agree, whatever [size], [branches], [spin], [randomness] and
    [randomnessPower] are; and the position arrays are equal as soon as
    [radius], [branches], [spin], [randomness] and [randomnessPower] agree,
    whatever [size] and the colours are. *)
Theorem arrays_depend_on_their_own_fields h p1 p2 w w1 w2 id1 id2 b1 b2 :
  reachable h w ->
  generateGalaxy h p1 w = (Ok tt, w1) -> points w1 = Some id1 ->
  buffers_of w1 id1 = Some b1 ->
  generateGalaxy h p2 w = (Ok tt, w2) -> points w2 = Some id2 ->
  buffers_of w2 id2 = Some b2 ->
  parameters.count p1 = parameters.count p2 ->
  parameters.radius p1 = parameters.radius p2 ->
  (parameters.insideColor p1 = parameters.insideColor p2 ->
   parameters.outsideColor p1 = parameters.outsideColor p2 ->
   b1.2 = b2.2)
  /\ (parameters.branches p1 = parameters.branches p2 ->
      parameters.spin p1 = parameters.spin p2 ->
      parameters.randomness p1 = parameters.randomness p2 ->
      parameters.randomnessPower p1 = parameters.randomnessPower p2 ->
      b1.1 = b2.1).
Proof.
  intros Hr R1 P1 B1 R2 P2 B2 Hc Hrad.
  pose proof (reachable_consistent h w Hr) as Hcons.
  assert (Hgen : forall p wp idp bp,
    generateGalaxy h p w = (Ok tt, wp) -> points wp = Some idp ->
    buffers_of wp idp = Some bp -> bp = generated h p (random_calls w)).
  { intros p wp idp bp Hrun Hp Hb.
    destruct (allocates_dec h p) as [Ha|Ha].
    - destruct (generate_returns h p w Hcons Ha)
        as (w' & Hrun' & Hp' & _ & Hb' & _).
      rewrite Hrun in Hrun'. inversion Hrun'; subst w'.
      rewrite Hp in Hp'. inversion Hp'; subst idp.
      rewrite Hb in Hb'. by inversion Hb'.
    - destruct (generate_throws h p w Hcons Ha) as [w' Hrun'].
      rewrite Hrun in Hrun'. discriminate. }
  rewrite (Hgen p1 w1 id1 b1 R1 P1 B1), (Hgen p2 w2 id2 b2 R2 P2 B2).
  unfold generated. rewrite Hc. split.
  - intros Hi Ho. by apply fill_colors_agree.
  - intros Hb Hs Hn Hp. by apply fill_positions_agree.
Qed.

Lemma arrays_depend_on_their_own_fields_witness :
  reachable browser initial
  /\ exists w1 w2 b1 b2,
       generateGalaxy browser defaults initial = (Ok tt, w1)
       /\ buffers_of w1 0 = Some b1
       /\ generateGalaxy browser no_scatter initial = (Ok tt, w2)
       /\ buffers_of w2 0 = Some b2
       /\ b1.2 = b2.2.
Proof.
  split; [apply reach_initial|].
  assert (Ha : allocates browser no_scatter) by (unfold allocates; simpl; lia).
  destruct (generate_returns browser defaults initial
              (reachable_consistent _ _ (reach_initial browser))
              browser_allocates_defaults)
    as (w1 & R1 & P1 & _ & B1 & _).
  destruct (generate_returns browser no_scatter initial
              (reachable_consistent _ _ (reach_initial browser)) Ha)
    as (w2 & R2 & P2 & _ & B2 & _).
  exists w1, w2, (generated browser defaults 0), (generated browser no_scatter 0).
  split; [exact R1|]. split; [exact B1|]. split; [exact R2|].
  split; [exact B2|].
  exact (proj1 (arrays_depend_on_their_own_fields browser defaults no_scatter
                  initial w1 w2 0 0 _ _ (reach_initial browser)
                  R1 P1 B1 R2 P2 B2 eq_refl eq_refl) eq_refl eq_refl).
Defined.

(** ** The panel *)

Lemma in_panel_defaults : in_panel defaults.
Proof.
  split; simpl; try lia; try lra; unfold valid_rgb; simpl; repeat split; lra.
Qed.

Lemma in_panel_assign e params :
  in_panel params -> within_panel e -> in_panel (assign e params).
Proof.
  intros [] He. destruct params; destruct e; simpl in *; split; simpl;
    assumption.
Qed.

Lemma in_panel_allocates h params :
  (3000000 <= Z.of_N (max_length h))%Z -> in_panel params ->
  allocates h params.
Proof. intros Hh [Hc _ _ _ _ _ _ _ _]. unfold allocates. lia. Qed.

Lemma camera_step w r w' :
  scene_add Camera w = (r, w') ->
  In Camera (scene w') /\ attached w' = attached w
  /\ points w' = points w /\ (forall id, buffers_of w' id = buffers_of w id).
Proof.
  intros Hrun. unfold scene_add, mbind, M_bind in Hrun. simpl in Hrun.
  inversion Hrun; subst; clear Hrun. simpl.
  split; [apply List.in_app_iff; right; left; reflexivity|].
  split; [|split; reflexivity].
  unfold attached; simpl.
  rewrite List.filter_app, filter_remove_camera. simpl. apply app_nil_r.
Qed.

(** X7: on a host that can allocate 3,000,000 cells, however many edits the
    controllers commit within their ranges, every field of [parameters] stays
    within its controller's range, the scene holds the camera and exactly one
    drawable, whose two arrays have [3 * count] cells for the current
    parameters, and the next committed edit regenerates without throwing. *)
Theorem panel_session_never_throws h params w :
  (3000000 <= Z.of_N (max_length h))%Z -> session h params w ->
  in_panel params /\ reachable h w /\ In Camera (scene w)
  /\ (exists p positions colors,
        attached w = [PointsObject p] /\ points w = Some p
        /\ buffers_of w p = Some (positions, colors)
        /\ Z.of_nat (length positions) = (3 * parameters.count params)%Z
        /\ Z.of_nat (length colors) = (3 * parameters.count params)%Z)
  /\ (forall e, within_panel e ->
        exists w', generateGalaxy h (assign e params) w = (Ok tt, w')).
Proof.
  intros Hh Hs.
  assert (Hshown : forall p0 w0 w1,
    consistent w0 -> allocates h p0 ->
    generateGalaxy h p0 w0 = (Ok tt, w1) ->
    exists p positions colors,
      attached w1 = [PointsObject p] /\ points w1 = Some p
      /\ buffers_of w1 p = Some (positions, colors)
      /\ Z.of_nat (length positions) = (3 * parameters.count p0)%Z
      /\ Z.of_nat (length colors) = (3 * parameters.count p0)%Z).
  { intros p0 w0 w1 Hc Ha Hrun.
    destruct (generate_returns h p0 w0 Hc Ha)
      as (w1' & Hrun' & Hp & Hatt & Hb & _).
    rewrite Hrun in Hrun'. inversion Hrun'; subst w1'.
    destruct (generated_length h p0 (random_calls w0)) as [L1 L2].
    destruct (generated h p0 (random_calls w0)) as [ps cs].
    exists (length (drawables w0)), ps, cs. simpl in L1, L2.
    unfold allocates in Ha. repeat split; auto; lia. }
  assert (Hinv : in_panel params /\ reachable h w /\ In Camera (scene w)
    /\ exists p positions colors,
         attached w = [PointsObject p] /\ points w = Some p
         /\ buffers_of w p = Some (positions, colors)
         /\ Z.of_nat (length positions) = (3 * parameters.count params)%Z
         /\ Z.of_nat (length colors) = (3 * parameters.count params)%Z).
  { induction Hs as [w1 r w2 Hrun Hcam|e params w r w' Hs IH He Hrun].
    - pose proof (reach_generate h defaults initial _ _ (reach_initial h) Hrun)
        as Hr1.
      destruct (Hshown defaults initial w1
                  (reachable_consistent _ _ (reach_initial h))
                  (in_panel_allocates h defaults Hh in_panel_defaults) Hrun)
        as (p & ps & cs & Hatt & Hp & Hb & L1 & L2).
      destruct (camera_step w1 r w2 Hcam) as (Hin & Hatt2 & Hp2 & Hb2).
      split; [apply in_panel_defaults|].
      split; [exact (reach_camera h w1 r w2 Hr1 Hcam)|].
      split; [exact Hin|].
      exists p, ps, cs. rewrite Hatt2, Hp2, Hb2. done.
    - destruct IH as (Hpan & Hr & Hin & _).
      pose proof (in_panel_assign e params Hpan He) as Hpan'.
      pose proof (in_panel_allocates h _ Hh Hpan') as Ha.
      pose proof (reachable_consistent h w Hr) as Hc.
      destruct (generate_returns h (assign e params) w Hc Ha)
        as (w1 & Hrun1 & _).
      rewrite Hrun in Hrun1. inversion Hrun1; subst r w1.
      split; [exact Hpan'|].
      split; [exact (reach_generate h _ w _ _ Hr Hrun)|].
      split; [exact (proj2 (generate_keeps_others h _ w _ _ Hr Hrun) Hin)|].
      exact (Hshown _ w w' Hc Ha Hrun). }
  destruct Hinv as (Hpan & Hr & Hin & Hf).
  split; [exact Hpan|]. split; [exact Hr|]. split; [exact Hin|].
  split; [exact Hf|].
  intros e He.
  destruct (generate_returns h (assign e params) w
              (reachable_consistent h w Hr)
              (in_panel_allocates h _ Hh (in_panel_assign e params Hpan He)))
    as (w' & Hrun & _).
  eauto.
Qed.

Lemma panel_session_never_throws_witness :
  (3000000 <= Z.of_N (max_length browser))%Z
  /\ session browser defaults (scene_add Camera loaded).2
  /\ exists w',
       generateGalaxy browser (assign (edit_branches 5) defaults)
         (scene_add Camera loaded).2 = (Ok tt, w').
Proof.
  assert (Hh : (3000000 <= Z.of_N (max_length browser))%Z) by (simpl; lia).
  assert (Hs : session browser defaults (scene_add Camera loaded).2)
    by exact (session_start browser loaded (Ok tt) _ loaded_run eq_refl).
  split; [exact Hh|]. split; [exact Hs|].
  apply (proj2 (proj2 (proj2 (proj2
           (panel_session_never_throws browser defaults _ Hh Hs))))).
  simpl. lia.
Defined.

(** ** 17-particles: the two loops *)

Lemma particles_loop_spec h n : forall i ps cs k,
  let r := particles_loop h n i (ps, cs, k) in
  length r.1.1 = length ps /\ length r.1.2 = length cs
  /\ r.2 = (k + 2 * n)%nat
  /\ (forall j, (j < i \/ i + n <= j)%nat ->
        r.1.1 !! j = ps !! j /\ r.1.2 !! j = cs !! j)
  /\ (forall j, (i <= j < i + n)%nat ->
        ((j < length ps)%nat ->
         r.1.1 !! j
         = Some ((Finite (random_source h (k + 2 * (j - i))) - 0.5) * 10)%js)
        /\ ((j < length cs)%nat ->
            r.1.2 !! j
            = Some (Finite (random_source h (S (k + 2 * (j - i))))))).
Proof.
  induction n as [|n IH]; intros i ps cs k; cbn zeta.
  - simpl. repeat split; auto; try lia.
  - cbn [particles_loop particles_step].
    specialize (IH (S i)
      (<[i := ((Finite (random_source h k) - 0.5) * 10)%js]> ps)
      (<[i := Finite (random_source h (S k))]> cs) (S (S k))).
    cbn zeta in IH. destruct IH as (L1 & L2 & Hk & Hout & Hin).
    rewrite !length_insert in *.
    split; [exact L1|]. split; [exact L2|]. split; [lia|]. split.
    + intros j Hj. destruct (Hout j ltac:(lia)) as [-> ->].
      rewrite !list_lookup_insert_ne by lia. done.
    + intros j Hj. destruct (decide (j = i)) as [->|Hne].
      * destruct (Hout i ltac:(lia)) as [-> ->].
        replace (k + 2 * (i - i))%nat with k by lia.
        split; intros Hlt; by apply list_lookup_insert_eq.
      * destruct (Hin j ltac:(lia)) as [H1 H2].
        replace (k + 2 * (j - i))%nat with (S (S k) + 2 * (j - S i))%nat
          by lia.
        split; auto.
Qed.

(** X8: when the host allocates the two arrays and the draws are in
    [[0, 1)], the loop makes two draws per cell, position first, so that cell
    [j] of [positions] is [(draw (2j) - 0.5) * 10], in [[-5, 5)], and cell [j]
    of [colors] is [draw (2j + 1)], in [[0, 1)]; both arrays have [3 * count]
    cells. *)
Theorem particles_init_ranges h count k :
  uniform_draws h ->
  (Z.of_nat (count * 3) <= Z.of_N (max_length h))%Z ->
  exists positions colors,
    particles_init h count k
    = Some (positions, colors, (k + 2 * (count * 3))%nat)
    /\ length positions = (count * 3)%nat
    /\ length colors = (count * 3)%nat
    /\ forall j, (j < count * 3)%nat ->
         exists x c,
           positions !! j = Some (Finite x)
           /\ x = (random_source h (k + 2 * j) - 0.5) * 10
           /\ -5 <= x < 5
           /\ colors !! j = Some (Finite c)
           /\ c = random_source h (k + 2 * j + 1)
           /\ 0 <= c < 1.
Proof.
  intros Hu Ha. unfold particles_init.
  destruct (Z.leb_spec (Z.of_nat (count * 3)) (Z.of_N (max_length h)));
    [|lia].
  cbn zeta.
  pose proof (particles_loop_spec h (count * 3) 0
    (replicate (count * 3) (Finite 0)) (replicate (count * 3) (Finite 0)) k)
    as Hspec.
  cbn zeta in Hspec. rewrite !length_replicate in Hspec.
  destruct (particles_loop h (count * 3) 0 _) as [[ps cs] k'].
  cbn [fst snd] in Hspec. destruct Hspec as (L1 & L2 & -> & _ & Hin).
  exists ps, cs. split; [reflexivity|]. split; [exact L1|].
  split; [exact L2|].
  intros j Hj. destruct (Hin j ltac:(lia)) as [H1 H2].
  replace (k + 2 * (j - 0))%nat with (k + 2 * j)%nat in * by lia.
  pose proof (Hu (k + 2 * j)%nat) as B1.
  pose proof (Hu (k + 2 * j + 1)%nat) as B2.
  exists ((random_source h (k + 2 * j) - 0.5) * 10),
    (random_source h (k + 2 * j + 1)).
  split; [rewrite (H1 Hj); reflexivity|]. split; [reflexivity|].
  split; [lra|].
  split; [rewrite (H2 Hj); do 3 f_equal; lia|]. split; [reflexivity|].
  exact B2.
Qed.

Lemma particles_init_ranges_witness :
  uniform_draws browser
  /\ (Z.of_nat (4 * 3) <= Z.of_N (max_length browser))%Z
  /\ exists positions colors k,
       particles_init browser 4 0 = Some (positions, colors, k)
       /\ length positions = 12%nat.
Proof.
  assert (Ha : (Z.of_nat (4 * 3) <= Z.of_N (max_length browser))%Z)
    by (simpl; lia).
  split; [apply browser_uniform|]. split; [exact Ha|].
  destruct (particles_init_ranges browser 4 0 browser_uniform Ha)
    as (ps & cs & H1 & H2 & _).
  exists ps, cs, (0 + 2 * (4 * 3))%nat. split; [exact H1 | exact H2].
Defined.

Lemma wave_step_length t i a : length (wave_step t i a) = length a.
Proof. unfold wave_step. apply length_insert. Qed.

Lemma wave_step_read t i a q :
  array_read (wave_step t i a) (q * 3) = array_read a (q * 3).
Proof.
  unfold array_read, wave_step. rewrite list_lookup_insert_ne by lia. done.
Qed.

Lemma wave_loop_length t n : forall i a, length (wave_loop t n i a) = length a.
Proof.
  induction n as [|n IH]; intros i a; [reflexivity|].
  cbn [wave_loop]. rewrite IH. apply wave_step_length.
Qed.

(** What the loop leaves in cell [k]: the turns [i .. i + n - 1] rewrite the
    cells [3j + 1] that exist, from the cell before them. *)
Lemma wave_loop_lookup t n : forall i a k,
  wave_loop t n i a !! k
  = if decide (k mod 3 = 1 /\ i <= k / 3 < i + n /\ k < length a)%nat
    then Some (Math.sin (Finite t - array_read a (k / 3 * 3))%js)
    else a !! k.
Proof.
  induction n as [|n IH]; intros i a k.
  - cbn [wave_loop]. destruct (decide _) as [H|_]; [lia | reflexivity].
  - cbn [wave_loop]. rewrite IH, wave_step_length, wave_step_read.
    pose proof (Nat.div_mod_eq k 3) as Hdm.
    pose proof (Nat.mod_upper_bound k 3 ltac:(lia)) as Hlt.
    destruct (decide (k mod 3 = 1 /\ S i <= k / 3 < S i + n /\ k < length a)%nat)
      as [H1|H1];
      destruct (decide (k mod 3 = 1 /\ i <= k / 3 < i + S n /\ k < length a)%nat)
      as [H2|H2]; try reflexivity; try lia.
    + unfold wave_step. destruct (decide (k = i * 3 + 1)%nat) as [->|Hne].
      * rewrite list_lookup_insert_eq by lia.
        replace ((i * 3 + 1) / 3 * 3)%nat with (i * 3 + 0)%nat by lia.
        reflexivity.
      * lia.
    + unfold wave_step. destruct (decide (k = i * 3 + 1)%nat) as [->|Hne].
      * rewrite list_insert_ge by lia. reflexivity.
      * apply list_lookup_insert_ne. lia.
Qed.

Lemma wave_loop_read t n i a q :
  array_read (wave_loop t n i a) (q * 3) = array_read a (q * 3).
Proof.
  unfold array_read. rewrite wave_loop_lookup.
  pose proof (Nat.div_mod_eq (q * 3) 3) as Hdm.
  pose proof (Nat.mod_upper_bound (q * 3) 3 ltac:(lia)) as Hlt.
  destruct (decide _) as [H|_]; [lia | reflexivity].
Qed.

(** X9: on the array of [3 * count] cells, one [tick] leaves the x and z
    cells of every particle as they were and sets its y cell to
    [sin (elapsedTime - x)], a value in [[-1, 1]] when x is a real number;
    the array keeps its length, and the turns [count .. 3 * count - 1] of the
    loop, which read and write past the end, change nothing. *)
Theorem tick_moves_only_y count elapsedTime array :
  length array = (count * 3)%nat ->
  let after := particles_tick count elapsedTime array in
  length after = length array
  /\ after = wave_loop elapsedTime count 0 array
  /\ forall j, (j < count)%nat ->
       after !! (j * 3)%nat = array !! (j * 3)%nat
       /\ after !! (j * 3 + 2)%nat = array !! (j * 3 + 2)%nat
       /\ after !! (j * 3 + 1)%nat
          = Some (Math.sin (Finite elapsedTime - array_read array (j * 3))%js)
       /\ forall x, array !! (j * 3)%nat = Some (Finite x) ->
            after !! (j * 3 + 1)%nat
            = Some (Finite (Rtrigo_def.sin (elapsedTime - x)))
            /\ -1 <= Rtrigo_def.sin (elapsedTime - x) <= 1.
Proof.
  intros Hlen after. unfold after, particles_tick.
  split; [apply wave_loop_length|]. split.
  - apply list_eq. intros k. rewrite !wave_loop_lookup.
    pose proof (Nat.div_mod_eq k 3) as Hdm.
    pose proof (Nat.mod_upper_bound k 3 ltac:(lia)) as Hlt.
    destruct (decide (k mod 3 = 1 /\ 0 <= k / 3 < 0 + count * 3
                      /\ k < length array)%nat) as [H1|H1];
      destruct (decide (k mod 3 = 1 /\ 0 <= k / 3 < 0 + count
                        /\ k < length array)%nat) as [H2|H2];
      try reflexivity; lia.
  - intros j Hj.
    assert (Hy : wave_loop elapsedTime (count * 3) 0 array !! (j * 3 + 1)%nat
      = Some (Math.sin (Finite elapsedTime - array_read array (j * 3))%js)).
    { rewrite wave_loop_lookup.
      pose proof (Nat.div_mod_eq (j * 3 + 1) 3) as Hdm.
      pose proof (Nat.mod_upper_bound (j * 3 + 1) 3 ltac:(lia)) as Hlt.
      destruct (decide _) as [_|H]; [|lia].
      replace ((j * 3 + 1) / 3 * 3)%nat with (j * 3)%nat by lia.
      reflexivity. }
    split; [|split; [|split; [exact Hy|]]].
    + rewrite wave_loop_lookup.
      pose proof (Nat.div_mod_eq (j * 3) 3) as Hdm.
      pose proof (Nat.mod_upper_bound (j * 3) 3 ltac:(lia)) as Hlt.
      destruct (decide _) as [H|_]; [lia | reflexivity].
    + rewrite wave_loop_lookup.
      pose proof (Nat.div_mod_eq (j * 3 + 2) 3) as Hdm.
      pose proof (Nat.mod_upper_bound (j * 3 + 2) 3 ltac:(lia)) as Hlt.
      destruct (decide _) as [H|_]; [lia | reflexivity].
    + intros x Hx. rewrite Hy. unfold array_read. rewrite Hx.
      split; [reflexivity | apply SIN_bound].
Qed.

Lemma tick_moves_only_y_witness :
  length [Finite 1; Finite 0; Finite 2; Finite 3; Finite 0; Finite 4]
  = (2 * 3)%nat
  /\ particles_tick 2 5
       [Finite 1; Finite 0; Finite 2; Finite 3; Finite 0; Finite 4] !! 4%nat
     = Some (Finite (Rtrigo_def.sin (5 - 3))).
Proof.
  split; [reflexivity|].
  destruct (tick_moves_only_y 2 5
              [Finite 1; Finite 0; Finite 2; Finite 3; Finite 0; Finite 4]
              eq_refl) as (_ & _ & H).
  destruct (H 1%nat ltac:(lia)) as (_ & _ & _ & Hx).
  exact (proj1 (Hx 3 eq_refl)).
Defined.

(** X10: the animation does not drift: the array after a [tick] at time [t]
    is the same whether or not other ticks ran before it, since a tick reads
    only x cells and writes only y cells. *)
Theorem tick_forgets_earlier_ticks count t t' array :
  particles_tick count t (particles_tick count t' array)
  = particles_tick count t array.
Proof.
  unfold particles_tick. apply list_eq. intros k.
  rewrite (wave_loop_lookup t), wave_loop_length, wave_loop_read.
  rewrite (wave_loop_lookup t _ _ array).
  destruct (decide _) as [H|H]; [reflexivity|].
  rewrite wave_loop_lookup. destruct (decide _) as [H'|_]; [|reflexivity].
  contradiction.
Qed.

Lemma tick_forgets_earlier_ticks_witness :
  particles_tick 1 2 (particles_tick 1 7 [Finite 1; Finite 0; Finite 2])
  = [Finite 1; Finite (Rtrigo_def.sin (2 - 1)); Finite 2].
Proof. rewrite tick_forgets_earlier_ticks. reflexivity. Defined.

(** ** 16-haunted-house: graves and ghosts *)

Lemma graves_loop_spec h n : forall k children,
  graves_loop h n k children
  = (children ++ map (fun i => new_grave h (k + 6 * i)) (seq 0 n),
     (k + 6 * n)%nat).
Proof.
  induction n as [|n IH]; intros k children.
  - simpl. rewrite app_nil_r. f_equal. lia.
  - cbn [graves_loop]. rewrite IH. cbn [seq map].
    rewrite <- app_assoc. cbn [app]. f_equal; [|lia].
    do 2 f_equal; [f_equal; lia|].
    rewrite <- seq_shift, map_map. apply map_ext. intros i. f_equal. lia.
Qed.

Lemma circle_point a r :
  (Rtrigo_def.sin a * r) * (Rtrigo_def.sin a * r)
  + (Rtrigo_def.cos a * r) * (Rtrigo_def.cos a * r) = r * r.
Proof.
  pose proof (sin2_cos2 a) as H. unfold Rsqr in H.
  replace (Rtrigo_def.sin a * r * (Rtrigo_def.sin a * r)
           + Rtrigo_def.cos a * r * (Rtrigo_def.cos a * r))
    with ((Rtrigo_def.sin a * Rtrigo_def.sin a
           + Rtrigo_def.cos a * Rtrigo_def.cos a) * (r * r)) by ring.
  rewrite H. ring.
Qed.

Lemma outside_walls p d :
  vx p * vx p + vz p * vz p = d * d -> 3 <= d -> ~ inside_walls p.
Proof. intros Hd H3 [Hx Hz]. nra. Qed.

Lemma new_grave_ring h o :
  uniform_draws h ->
  let g := new_grave h o in
  (exists radius,
     3 <= radius < 9
     /\ vx (mesh_position g) * vx (mesh_position g)
        + vz (mesh_position g) * vz (mesh_position g)
        = radius * radius)
  /\ ~ inside_walls (mesh_position g)
  /\ 0 <= vy (mesh_position g) < 0.4
  /\ -0.2 <= vx (mesh_rotation g) < 0.2
  /\ -0.2 <= vy (mesh_rotation g) < 0.2
  /\ -0.2 <= vz (mesh_rotation g) < 0.2.
Proof.
  intros Hu g.
  pose proof (Hu (1 + o)%nat) as B1. pose proof (Hu (2 + o)%nat) as B2.
  pose proof (Hu (3 + o)%nat) as B3. pose proof (Hu (4 + o)%nat) as B4.
  pose proof (Hu (5 + o)%nat) as B5.
  assert (Hc : vx (mesh_position g) * vx (mesh_position g)
               + vz (mesh_position g) * vz (mesh_position g)
               = (3 + random_source h (1 + o) * 6)
                 * (3 + random_source h (1 + o) * 6))
    by (unfold g; cbn [new_grave mesh_position vx vz]; apply circle_point).
  split; [eexists; split; [|exact Hc]; lra|].
  split; [apply (outside_walls _ _ Hc); lra|].
  unfold g. cbn [new_grave mesh_position mesh_rotation vx vy vz]. lra.
Qed.

(** X11: with draws in [[0, 1)] the loop makes 50 graves from six draws each,
    in order; every grave stands between 3 and 9 from the vertical axis,
    hence outside the footprint of the walls, between 0 and 0.4 high, and is
    tilted by less than 0.2 about each axis. *)
Theorem graves_ring h k :
  uniform_draws h ->
  length (graves h k).1 = 50%nat
  /\ (graves h k).2 = (k + 300)%nat
  /\ forall i g, (graves h k).1 !! i = Some g ->
       g = new_grave h (k + 6 * i)
       /\ (exists radius,
             3 <= radius < 9
             /\ vx (mesh_position g) * vx (mesh_position g)
                + vz (mesh_position g) * vz (mesh_position g)
                = radius * radius)
       /\ ~ inside_walls (mesh_position g)
       /\ 0 <= vy (mesh_position g) < 0.4
       /\ -0.2 <= vx (mesh_rotation g) < 0.2
       /\ -0.2 <= vy (mesh_rotation g) < 0.2
       /\ -0.2 <= vz (mesh_rotation g) < 0.2.
Proof.
  intros Hu. unfold graves. rewrite graves_loop_spec. cbn [fst snd app].
  split; [rewrite length_map, length_seq; reflexivity|].
  split; [lia|].
  intros i g Hg. rewrite list_lookup_fmap in Hg.
  destruct (seq 0 50 !! i) as [i'|] eqn:Hi; [|discriminate Hg].
  apply lookup_seq in Hi. destruct Hi as [-> _].
  assert (Heq : g = new_grave h (k + 6 * i)) by (inversion Hg; reflexivity).
  split; [exact Heq|]. rewrite Heq. apply new_grave_ring. exact Hu.
Qed.

Lemma graves_ring_witness :
  uniform_draws browser
  /\ length (graves browser 0).1 = 50%nat
  /\ (graves browser 0).2 = 300%nat.
Proof.
  split; [apply browser_uniform|].
  destruct (graves_ring browser 0 browser_uniform) as (H1 & H2 & _).
  split; [exact H1 | exact H2].
Defined.

Lemma sin_product a b c :
  -1 <= Rtrigo_def.sin a * Rtrigo_def.sin b * Rtrigo_def.sin c <= 1.
Proof.
  pose proof (SIN_bound a). pose proof (SIN_bound b).
  pose proof (SIN_bound c).
  assert (-1 <= Rtrigo_def.sin a * Rtrigo_def.sin b <= 1) by nra.
  nra.
Qed.

Lemma circle_point_cos a r :
  (Rtrigo_def.cos a * r) * (Rtrigo_def.cos a * r)
  + (Rtrigo_def.sin a * r) * (Rtrigo_def.sin a * r) = r * r.
Proof. rewrite Rplus_comm. apply circle_point. Qed.

(** X12: at every time the three ghosts are on their circles, 5, 5 and 6 from
    the vertical axis, hence never inside the footprint of the walls, and
    between -1 and 1 high. *)
Theorem ghosts_orbit elapsedTime :
  let g1 := ghost1 elapsedTime in
  let g2 := ghost2 elapsedTime in
  let g3 := ghost3 elapsedTime in
  vx g1 * vx g1 + vz g1 * vz g1 = 5 * 5
  /\ vx g2 * vx g2 + vz g2 * vz g2 = 5 * 5
  /\ vx g3 * vx g3 + vz g3 * vz g3 = 6 * 6
  /\ -1 <= vy g1 <= 1 /\ -1 <= vy g2 <= 1 /\ -1 <= vy g3 <= 1
  /\ ~ inside_walls g1 /\ ~ inside_walls g2 /\ ~ inside_walls g3.
Proof.
  cbn zeta.
  assert (H1 : vx (ghost1 elapsedTime) * vx (ghost1 elapsedTime)
               + vz (ghost1 elapsedTime) * vz (ghost1 elapsedTime) = 5 * 5)
    by apply circle_point_cos.
  assert (H2 : vx (ghost2 elapsedTime) * vx (ghost2 elapsedTime)
               + vz (ghost2 elapsedTime) * vz (ghost2 elapsedTime) = 5 * 5)
    by apply circle_point_cos.
  assert (H3 : vx (ghost3 elapsedTime) * vx (ghost3 elapsedTime)
               + vz (ghost3 elapsedTime) * vz (ghost3 elapsedTime) = 6 * 6)
    by apply circle_point_cos.
  split; [exact H1|]. split; [exact H2|]. split; [exact H3|].
  split; [apply sin_product|]. split; [apply sin_product|].
  split; [apply sin_product|].
  split; [apply (outside_walls _ _ H1); lra|].
  split; [apply (outside_walls _ _ H2); lra | apply (outside_walls _ _ H3); lra].
Qed.

(** ** Finite values *)

Lemma generated_colors_unit h params off i :
  valid_params params -> uniform_draws h ->
  (Z.of_nat i < parameters.count params)%Z ->
  exists r g b,
    (generated h params off).2 !! (i * 3)%nat = Some (Finite r)
    /\ (generated h params off).2 !! (i * 3 + 1)%nat = Some (Finite g)
    /\ (generated h params off).2 !! (i * 3 + 2)%nat = Some (Finite b)
    /\ 0 <= r <= 1 /\ 0 <= g <= 1 /\ 0 <= b <= 1.
Proof.
  intros Hv Hu Hi.
  pose proof (valid_radius params Hv) as Hpos.
  assert (Hrad : parameters.radius params <> 0) by lra.
  destruct (generated_cells h params off i Hi) as (_ & _ & _ & Cr & Cg & Cb).
  rewrite (mixedColor_value h params _ Hrad) in Cr, Cg, Cb.
  cbn [Color.r Color.g Color.b] in Cr, Cg, Cb.
  set (t := random_source h (off + 7 * i) * parameters.radius params
            / parameters.radius params) in *.
  assert (Ht : 0 <= t <= 1).
  { unfold t.
    replace (random_source h (off + 7 * i) * parameters.radius params
             / parameters.radius params)
      with (random_source h (off + 7 * i)) by (field; exact Hrad).
    destruct (Hu (off + 7 * i)%nat). lra. }
  destruct (valid_insideColor params Hv) as (I1 & I2 & I3).
  destruct (valid_outsideColor params Hv) as (O1 & O2 & O3).
  do 3 eexists. split; [exact Cr|]. split; [exact Cg|]. split; [exact Cb|].
  pose proof (mix_between (red (parameters.insideColor params))
                (red (parameters.outsideColor params)) t Ht) as M1.
  pose proof (mix_between (green (parameters.insideColor params))
                (green (parameters.outsideColor params)) t Ht) as M2.
  pose proof (mix_between (blue (parameters.insideColor params))
                (blue (parameters.outsideColor params)) t Ht) as M3.
  unfold Rmin, Rmax in M1, M2, M3.
  repeat split;
    repeat match goal with
           | H : context [Rle_dec ?a ?b] |- _ => destruct (Rle_dec a b)
           end; lra.
Qed.

(** C9, as the code has it: for every valid parameter set whose [radius] is
    at most 20, [spin] between -5 and 5 and [randomness] at most 2 (the
    panel's maxima), and draws in [[0, 1)], every cell of [positions] is a
    real number of magnitude at most 60 and every cell of [colors] a real
    number between 0 and 1, and each is stored as a number: no NaN and no
    infinity. *)
Theorem written_values_are_finite h params w :
  reachable h w -> allocates h params ->
  valid_params params -> uniform_draws h ->
  parameters.radius params <= 20 ->
  -5 <= parameters.spin params <= 5 ->
  parameters.randomness params <= 2 ->
  exists w' id positions colors,
    generateGalaxy h params w = (Ok tt, w')
    /\ points w' = Some id
    /\ buffers_of w' id = Some (positions, colors)
    /\ forall k, (Z.of_nat k < 3 * parameters.count params)%Z ->
         exists x c,
           positions !! k = Some (Finite x)
           /\ Rabs x <= 60 /\ fround (Finite x) = Finite x
           /\ colors !! k = Some (Finite c)
           /\ 0 <= c <= 1 /\ fround (Finite c) = Finite c.
Proof.
  intros Hr Ha Hv Hu Hrad _ Hn.
  destruct (generate_returns h params w (reachable_consistent h w Hr) Ha)
    as (w' & Hrun & Hp & _ & Hbuf & _).
  pose proof (generated_positions_bounded h params (random_calls w)) as HP.
  pose proof (generated_colors_unit h params (random_calls w)) as HC.
  destruct (generated h params (random_calls w)) as [ps cs].
  cbn [fst snd] in HP, HC.
  exists w', (length (drawables w)), ps, cs.
  split; [exact Hrun|]. split; [exact Hp|]. split; [exact Hbuf|].
  intros k Hk.
  pose proof (Nat.div_mod_eq k 3) as Hdm.
  pose proof (Nat.mod_upper_bound k 3 ltac:(lia)) as Hlt.
  assert (Hi : (Z.of_nat (k / 3) < parameters.count params)%Z) by lia.
  pose proof (valid_radius params Hv) as R0.
  pose proof (valid_randomness params Hv) as N0.
  pose proof (valid_randomnessPower params Hv) as P0.
  pose proof (valid_branches params Hv) as B0.
  destruct (HP (k / 3)%nat Hu ltac:(lia) ltac:(lra) N0 ltac:(lra) Hi)
    as (x & y & z & Cx & Cy & Cz & Hb).
  cbn zeta in Hb. destruct Hb as (_ & _ & _ & Bx & By & Bz).
  destruct (HC (k / 3)%nat Hv Hu Hi)
    as (r & g & b & Cr & Cg & Cb & Ur & Ug & Ub).
  assert (Hbox : parameters.radius params
                 * (1 + parameters.randomness params) <= 60) by nra.
  assert (Hbox' : parameters.radius params * parameters.randomness params
                  <= 60) by nra.
  assert (Hunit : forall c, 0 <= c <= 1 -> fround (Finite c) = Finite c).
  { intros c Hc. apply fround_in_range. apply Rabs_le. lra. }
  destruct (k mod 3)%nat as [|[|[|m]]] eqn:Hmod; [| | |lia].
  - assert (Ek : k = (k / 3 * 3)%nat) by lia.
    exists x, r. rewrite Ek. split; [exact Cx|]. split; [lra|].
    split; [apply fround_in_range; lra|]. split; [exact Cr|].
    split; [exact Ur | exact (Hunit r Ur)].
  - assert (Ek : k = (k / 3 * 3 + 1)%nat) by lia.
    exists y, g. rewrite Ek. split; [exact Cy|]. split; [lra|].
    split; [apply fround_in_range; lra|]. split; [exact Cg|].
    split; [exact Ug | exact (Hunit g Ug)].
  - assert (Ek : k = (k / 3 * 3 + 2)%nat) by lia.
    exists z, b. rewrite Ek. split; [exact Cz|]. split; [lra|].
    split; [apply fround_in_range; lra|]. split; [exact Cb|].
    split; [exact Ub | exact (Hunit b Ub)].
Qed.

Lemma written_values_are_finite_witness :
  reachable browser initial /\ allocates browser defaults
  /\ valid_params defaults /\ uniform_draws browser
  /\ exists w' id positions colors x c,
       generateGalaxy browser defaults initial = (Ok tt, w')
       /\ points w' = Some id
       /\ buffers_of w' id = Some (positions, colors)
       /\ positions !! 7%nat = Some (Finite x)
       /\ Rabs x <= 60 /\ fround (Finite x) = Finite x
       /\ colors !! 7%nat = Some (Finite c)
       /\ 0 <= c <= 1 /\ fround (Finite c) = Finite c.
Proof.
  split; [apply reach_initial|]. split; [apply browser_allocates_defaults|].
  split; [apply defaults_valid|]. split; [apply browser_uniform|].
  destruct (written_values_are_finite browser defaults initial
              (reach_initial browser) browser_allocates_defaults
              defaults_valid browser_uniform)
    as (w' & id & ps & cs & H1 & H2 & H3 & Hk);
    [simpl; lra | simpl; lra | simpl; lra |].
  destruct (Hk 7%nat) as (x & c & K); [simpl; lia|].
  exists w', id, ps, cs, x, c. tauto.
Defined.

Lemma position_without_scatter h params off i :
  uniform_draws h -> (1 <= parameters.branches params)%Z ->
  1 <= parameters.randomnessPower params ->
  parameters.randomness params = 0 ->
  position_x h params off i
  = Finite (Rtrigo_def.cos
              (IZR (Z.of_nat i mod parameters.branches params)
               / IZR (parameters.branches params) * (2 * Rtrigo1.PI)
               + random_source h off * parameters.radius params
                 * parameters.spin params)
            * (random_source h off * parameters.radius params)).
Proof.
  intros Hu Hb HP H0. unfold position_x, angle, spinAngle, radius_i.
  rewrite (branchAngle_value params i Hb). cbn [num_mul].
  rewrite (scatter_zero params _ _ _ (proj1 (Hu _)) HP H0).
  simpl. f_equal. ring.
Qed.

(** C9 as stated fails: a [radius] of 10^39 is finite and within its range,
    and with it the x coordinate the first particle is given on the first
    draw 1/2, 5 * 10^38, is beyond the largest single: the cell of
    [positions] holds an infinity. *)
Lemma huge_radius_stores_infinity :
  valid_params huge_radius /\ uniform_draws browser
  /\ allocates browser huge_radius
  /\ exists w' positions colors,
       generateGalaxy browser huge_radius initial = (Ok tt, w')
       /\ buffers_of w' 0 = Some (positions, colors)
       /\ positions !! 0%nat
          = Some (Finite 500000000000000000000000000000000000000)
       /\ fround (Finite 500000000000000000000000000000000000000)
          = NonFinite.
Proof.
  assert (Hv : valid_params huge_radius).
  { split; cbn [huge_radius parameters.count parameters.size
      parameters.radius parameters.branches parameters.randomness
      parameters.randomnessPower parameters.insideColor
      parameters.outsideColor]; try lia; try lra;
      unfold valid_rgb; cbn [red green blue]; repeat split; lra. }
  assert (Ha : allocates browser huge_radius)
    by (unfold allocates; cbn [huge_radius parameters.count browser
          max_length]; lia).
  split; [exact Hv|]. split; [apply browser_uniform|]. split; [exact Ha|].
  destruct (generate_returns browser huge_radius initial
              (reachable_consistent _ _ (reach_initial browser)) Ha)
    as (w' & Hrun & _ & _ & Hbuf & _).
  pose proof (generated_cells browser huge_radius 0 0) as Hcells.
  cbn [random_calls initial drawables length] in Hbuf.
  destruct (generated browser huge_radius 0) as [ps cs].
  exists w', ps, cs. split; [exact Hrun|]. split; [exact Hbuf|]. split.
  - destruct Hcells as (Cx & _); [cbn [huge_radius parameters.count]; lia|].
    cbn [fst] in Cx. change (0 * 3)%nat with 0%nat in Cx. rewrite Cx.
    rewrite (position_without_scatter browser huge_radius _ 0 browser_uniform
               (valid_branches _ Hv) (valid_randomnessPower _ Hv) eq_refl).
    do 2 f_equal.
    cbn [random_source browser parameters.radius parameters.spin
         parameters.branches huge_radius].
    change (IZR (Z.of_nat 0 mod 3)) with 0.
    replace (0 / 3 * (2 * Rtrigo1.PI)
             + 1 / 2 * 1000000000000000000000000000000000000000 * 0)
      with 0 by field.
    rewrite cos_0. lra.
  - unfold fround, float32_overflow.
    destruct (Rlt_dec _ _) as [Hlt|_]; [|reflexivity].
    rewrite Rabs_pos_eq in Hlt; lra.
Qed.
